(** * extract_loudest_section_python: the loudest-segment locator and the
      per-file trimmer, embedded from [extract_loudest_section_python.py].

    The script computes on samples in the floating-point format of its
    input.  The functions are embedded twice.  First with exact rational
    arithmetic ([Q]): every finite float32 or float64 sample is a rational,
    and squares, running sums and means are the exact ones; what is proved
    of these definitions is what the code does when no operation rounds.
    Then over an abstract arithmetic, of which exact arithmetic and the
    IEEE formats binary32 and binary64 (with rounding to nearest even,
    infinities and [nan]) are instances; the exact definitions are proved
    equal to the instance at exact arithmetic.

    Python integers are [Z], and the one division of integers, in the
    window length, is modelled with its rounding to binary64.  Exceptions
    are explicit: a computation returns [Ok v] or [Raise e]. *)

From Stdlib Require Import ZArith QArith Qabs Lia String.
From stdpp Require Import base list strings gmap.

Local Open Scope Z_scope.

(** ** Python exceptions and the exception monad *)

Inductive Exn : Type :=
  | IndexError
  | OverflowError
  | ZeroDivisionError
  | AssertionError
  | OSError.

Inductive result (A : Type) : Type :=
  | Ok (a : A)
  | Raise (e : Exn).
Arguments Ok {A} a.
Arguments Raise {A} e.

#[global] Instance result_ret : MRet result := fun A a => Ok a.

#[global] Instance result_bind : MBind result := fun A B k m =>
  match m with
  | Ok a => k a
  | Raise e => Raise e
  end.

#[global] Instance result_fmap : FMap result := fun A B f m =>
  match m with
  | Ok a => Ok (f a)
  | Raise e => Raise e
  end.

(** ** Python sequences: [len], indexing, slicing, [range] *)

Definition len {A : Type} (l : list A) : Z := Z.of_nat (length l).

(** [l[i]]: a negative index counts from the end; out of range raises. *)
Definition py_index {A : Type} (l : list A) (i : Z) : result A :=
  let j := if i <? 0 then i + len l else i in
  if (j <? 0) || (len l <=? j) then Raise IndexError
  else match l !! Z.to_nat j with
       | Some x => Ok x
       | None => Raise IndexError
       end.

(** A slice bound is shifted by the length when negative, then clamped
    to [0, len]. *)
Definition py_clamp (n i : Z) : Z :=
  let j := if i <? 0 then i + n else i in
  Z.max 0 (Z.min n j).

(** [l[start:stop]] *)
Definition py_slice {A : Type} (l : list A) (start stop : Z) : list A :=
  let a := py_clamp (len l) start in
  let b := py_clamp (len l) stop in
  take (Z.to_nat (b - a)) (drop (Z.to_nat a) l).

(** [range(start, stop)] *)
Definition py_range (start stop : Z) : list Z :=
  map (fun k => start + Z.of_nat k) (seq 0 (Z.to_nat (stop - start))).

(** ** numpy reductions used by the script *)

Definition np_square (xs : list Q) : list Q := map (fun x => x * x)%Q xs.

Definition np_abs (xs : list Q) : list Q := map Qabs xs.

Definition np_sum (xs : list Q) : Q := foldr Qplus 0%Q xs.

(** [a > b] on samples *)
Definition Qgtb (a b : Q) : bool :=
  (Qnum b * Zpos (Qden a) <? Qnum a * Zpos (Qden b)).

(** ** The segment locator *)

(** The loop state: [current_volume_sum], [loudest_volume],
    [loudest_start_index]. *)
Record LoopState : Type := mkLoopState {
  current_volume_sum : Q;
  loudest_volume : Q;
  loudest_start_index : Z
}.

(** One iteration of the sliding loop of [trim_to_loudest_segment]. *)
Definition slide_step (input_samples : list Q) (desired_samples : Z)
    (st : LoopState) (i : Z) : result LoopState :=
  trailing_value ← py_index input_samples (i - 1);
  leading_value ← py_index input_samples (i + desired_samples - 1);
  let cur := (current_volume_sum st - trailing_value * trailing_value)%Q in
  let cur := (cur + leading_value * leading_value)%Q in
  if Qgtb cur (loudest_volume st)
  then Ok (mkLoopState cur cur i)
  else Ok (mkLoopState cur (loudest_volume st) (loudest_start_index st)).

(** A [for] loop over a list of indices, stopping at the first exception. *)
Fixpoint for_each {S : Type} (body : S → Z → result S) (idxs : list Z) (st : S)
    : result S :=
  match idxs with
  | [] => Ok st
  | i :: rest => st' ← body st i; for_each body rest st'
  end.

Definition trim_to_loudest_segment (input_samples : list Q)
    (desired_samples : Z) : result (Z * Z) :=
  let input_size := len input_samples in
  if input_size <=? desired_samples then Ok (0, input_size)
  else
    let current := np_sum (np_square (py_slice input_samples 0 desired_samples)) in
    let st0 := mkLoopState current current 0 in
    st ← for_each (slide_step input_samples desired_samples)
                  (py_range 1 (input_size - desired_samples + 1)) st0;
    let loudest_end_index := loudest_start_index st + desired_samples in
    Ok (loudest_start_index st, loudest_end_index).

(** The second copy of the locator, the one [trim_file] calls. *)
Definition slide_step_indices (input_samples : list Q) (desired_samples : Z)
    (st : LoopState) (i : Z) : result LoopState :=
  trailing_value ← py_index input_samples (i - 1);
  leading_value ← py_index input_samples (i + desired_samples - 1);
  let cur := (current_volume_sum st - trailing_value * trailing_value)%Q in
  let cur := (cur + leading_value * leading_value)%Q in
  if Qgtb cur (loudest_volume st)
  then Ok (mkLoopState cur cur i)
  else Ok (mkLoopState cur (loudest_volume st) (loudest_start_index st)).

Definition trim_to_loudest_segment_indices (input_samples : list Q)
    (desired_samples : Z) : result (Z * Z) :=
  let input_size := len input_samples in
  if input_size <=? desired_samples then Ok (0, input_size)
  else
    let current := np_sum (np_square (py_slice input_samples 0 desired_samples)) in
    let st0 := mkLoopState current current 0 in
    st ← for_each (slide_step_indices input_samples desired_samples)
                  (py_range 1 (input_size - desired_samples + 1)) st0;
    let loudest_end_index := loudest_start_index st + desired_samples in
    Ok (loudest_start_index st, loudest_end_index).

(** ** The naive reference locator

    The reference the incremental locator is compared with: every window's
    sum of squares is recomputed from scratch, windows are scanned left to
    right and the best index is replaced on strict improvement only. *)

Definition window_energy (input_samples : list Q) (desired_samples j : Z) : Q :=
  np_sum (np_square (py_slice input_samples j (j + desired_samples))).

Definition naive_step (input_samples : list Q) (desired_samples : Z)
    (st : Q * Z) (i : Z) : result (Q * Z) :=
  let e := window_energy input_samples desired_samples i in
  if Qgtb e (fst st) then Ok (e, i) else Ok st.

Definition naive_loudest_segment (input_samples : list Q)
    (desired_samples : Z) : result (Z * Z) :=
  let input_size := len input_samples in
  if input_size <=? desired_samples then Ok (0, input_size)
  else
    st ← for_each (naive_step input_samples desired_samples)
                  (py_range 1 (input_size - desired_samples + 1))
                  (window_energy input_samples desired_samples 0, 0);
    Ok (snd st, snd st + desired_samples).

(** ** Python's [int / int] and [int(float)]

    [desired_length_ms] and [sample_rate] are Python integers, so
    [(desired_length_ms * sample_rate) / 1000] is the true division of two
    integers: the binary64 value nearest to the exact quotient (ties to
    even), [ZeroDivisionError] for a zero divisor, [OverflowError] when the
    rounded quotient is not finite.  A finite binary64 value is kept as
    [mantissa * 2 ^ exponent]. *)

Record float64 : Type := mkFloat64 {
  mantissa : Z;
  exponent : Z
}.

(** The integer nearest to [n / d], ties to even; [0 <= n] and [0 < d]. *)
Definition round_half_even (n d : Z) : Z :=
  let q := n / d in
  let r := n mod d in
  if 2 * r <? d then q
  else if d <? 2 * r then q + 1
  else if Z.even q then q else q + 1.

(** [floor (log2 (n / d))] for positive [n] and [d]. *)
Definition ilog2_ratio (n d : Z) : Z :=
  let e := Z.log2 n - Z.log2 d in
  let reached := if 0 <=? e then d * 2 ^ e <=? n else d <=? n * 2 ^ (- e) in
  if reached then e else e - 1.

Definition long_true_divide (a b : Z) : result float64 :=
  if b =? 0 then Raise ZeroDivisionError
  else if a =? 0 then Ok (mkFloat64 0 0)
  else
    let n := Z.abs a in
    let d := Z.abs b in
    let e := Z.max (ilog2_ratio n d - 52) (-1074) in
    let m := if 0 <=? e then round_half_even n (d * 2 ^ e)
             else round_half_even (n * 2 ^ (- e)) d in
    if (0 <=? e) && (2 ^ 1024 <=? m * 2 ^ e) then Raise OverflowError
    else Ok (mkFloat64 (Z.sgn a * Z.sgn b * m) e).

(** [int(x)] on a finite float truncates toward zero. *)
Definition int_of_float (x : float64) : Z :=
  if 0 <=? exponent x then mantissa x * 2 ^ exponent x
  else Z.quot (mantissa x) (2 ^ (- exponent x)).

(** [int((desired_length_ms * sample_rate) / 1000)] *)
Definition desired_samples_of (desired_length_ms sample_rate : Z) : result Z :=
  int_of_float <$> long_true_divide (desired_length_ms * sample_rate) 1000.

(** ** The per-file trimmer

    The audio library and the file system are the environment: a [World]
    holds the decodable audio files, which writes succeed, how the encoder
    of each output file stores a sample, and what the script has printed
    so far. *)

Record Wav : Type := mkWav {
  wav_samples : list (list Q);   (* frames, each a row of channel values *)
  sample_rate : Z
}.

(** A numpy scalar: a number, [nan] (for instance the mean of no values),
    or an infinity. *)
Inductive npfloat : Type :=
  | Finite (q : Q)
  | NaN
  | Infinity (negative : bool).

Inductive Message : Type :=
  | MsgDecodeFailed (input_filename : string)
  | MsgSkipped (input_filename : string) (average_volume : npfloat)
  | MsgSaved (output_filename : string)
  | MsgWriteFailed (output_filename : string)
  | MsgUsage.

Record World : Type := mkWorld {
  files : gmap string Wav;
  writable : string → list (list Q) → Z → bool;
  requantise : string → Q → Q;
  stdout : list Message
}.

Definition print (w : World) (m : Message) : World :=
  mkWorld (files w) (writable w) (requantise w) (stdout w ++ [m]).

(** [sf.read(input_filename, always_2d=True, dtype='float32')]; [None]
    stands for any exception it raises. *)
Definition sf_read (w : World) (input_filename : string) : option Wav :=
  files w !! input_filename.

(** [sf.write(output_filename, data, sample_rate)]; [None] stands for any
    exception it raises.  No subtype is passed, so the samples are encoded
    in the default subtype of the file format (16-bit PCM for WAV);
    [requantise w output_filename x] is what a sample [x] written to that
    file reads back as.  Frame count, channel count and sample rate are
    stored as given. *)
Definition sf_write (w : World) (output_filename : string)
    (data : list (list Q)) (rate : Z) : option World :=
  if writable w output_filename data rate
  then Some (mkWorld (<[output_filename :=
                         mkWav (map (map (requantise w output_filename)) data)
                               rate]> (files w))
                     (writable w) (requantise w) (stdout w))
  else None.

(** The shape [sf.read] returns with [always_2d=True]: every frame has the
    same number of channels, at least one. *)
Definition always_2d (a : list (list Q)) (channels : Z) : Prop :=
  1 <= channels ∧ Forall (fun row => len row = channels) a.

(** [a.mean(axis=1)] on an array of that shape. *)
Definition mean_axis1 (a : list (list Q)) : list Q :=
  map (fun row => np_sum row / inject_Z (len row))%Q a.

(** [np.mean] of a one-dimensional array; [nan] when it is empty. *)
Definition np_mean (xs : list Q) : npfloat :=
  match xs with
  | [] => NaN
  | _ => Finite (np_sum xs / inject_Z (len xs))%Q
  end.

(** [x < y] for a numpy scalar and a float; false on [nan]. *)
Definition npfloat_ltb (x : npfloat) (y : Q) : bool :=
  match x with
  | Finite q => Qgtb y q
  | NaN => false
  | Infinity negative => negative
  end.

Definition trim_file (w : World) (input_filename output_filename : string)
    (desired_length_ms : Z) (min_volume : Q) : result World :=
  match sf_read w input_filename with
  | None => Ok (print w (MsgDecodeFailed input_filename))
  | Some wav =>
      let mono_samples := mean_axis1 (wav_samples wav) in
      desired_samples ← desired_samples_of desired_length_ms (sample_rate wav);
      idx ← trim_to_loudest_segment_indices mono_samples desired_samples;
      let start_idx := fst idx in
      let end_idx := snd idx in
      let trimmed_mono_samples := py_slice mono_samples start_idx end_idx in
      let average_volume := np_mean (np_abs trimmed_mono_samples) in
      if npfloat_ltb average_volume min_volume
      then Ok (print w (MsgSkipped input_filename average_volume))
      else
        let trimmed_samples := py_slice (wav_samples wav) start_idx end_idx in
        match sf_write w output_filename trimmed_samples (sample_rate wav) with
        | Some w' => Ok (print w' (MsgSaved output_filename))
        | None => Ok (print w (MsgWriteFailed output_filename))
        end
  end.

(** [a[f, c]] *)
Definition array2_get (a : list (list Q)) (f c : Z) : result Q :=
  row ← py_index a f; py_index row c.

(** ** The command line driver *)

(** The float literal [0.004]: the binary64 value nearest to 4/1000. *)
Definition min_volume_default : Q := 1152921504606847 # (2 ^ 58).

Section Main.

(** The operating system: [glob.glob], [os.path.split], [os.path.join],
    [os.path.dirname] and [os.makedirs(_, exist_ok=True)]. *)
Variable glob_glob : World → string → list string.
Variable os_path_split : string → string * string.
Variable os_path_join : string → string → string.
Variable os_path_dirname : string → string.
Variable os_makedirs : World → string → result World.

(** The output path of one input: the output root joined with the base
    name of the input. *)
Definition output_path (output_root input_filename : string) : string :=
  os_path_join output_root (snd (os_path_split input_filename)).

(** The first loop of [main]: the output file names, in input order, and
    the set of their directories. *)
Fixpoint output_names (output_root : string) (input_filenames : list string)
    (output_filenames : list string) (output_dirs : gset string)
    : list string * gset string :=
  match input_filenames with
  | [] => (output_filenames, output_dirs)
  | input_filename :: rest =>
      let input_base := snd (os_path_split input_filename) in
      let output_filename := os_path_join output_root input_base in
      let output_dir := os_path_dirname output_filename in
      output_names output_root rest (output_filenames ++ [output_filename])
                   ({[output_dir]} ∪ output_dirs)
  end.

(** The second loop: the world at the point where the loop ends or
    raises, and how it ended. *)
Fixpoint make_dirs (w : World) (dirs : list string) : World * result unit :=
  match dirs with
  | [] => (w, Ok tt)
  | output_dir :: rest =>
      match os_makedirs w output_dir with
      | Ok w' => make_dirs w' rest
      | Raise e => (w, Raise e)
      end
  end.

(** The third loop, over [zip(input_filenames, output_filenames)]. *)
Fixpoint trim_files (w : World) (pairs : list (string * string))
    : World * result unit :=
  match pairs with
  | [] => (w, Ok tt)
  | (input_filename, output_filename) :: rest =>
      let desired_length_ms := 1000 in
      let min_volume := min_volume_default in
      match trim_file w input_filename output_filename
                      desired_length_ms min_volume with
      | Ok w' => trim_files w' rest
      | Raise e => (w, Raise e)
      end
  end.

Definition main (w : World) (argv : list string) : World * result Z :=
  if len argv <? 3 then (print w MsgUsage, Ok (-1))
  else
    match py_index argv 1, py_index argv 2 with
    | Ok input_glob, Ok output_root =>
        let input_filenames := glob_glob w input_glob in
        let '(output_filenames, output_dirs) :=
          output_names output_root input_filenames [] ∅ in
        match make_dirs w (elements output_dirs) with
        | (w1, Raise e) => (w1, Raise e)
        | (w1, Ok _) =>
            if negb (len input_filenames =? len output_filenames)
            then (w1, Raise AssertionError)
            else
              match trim_files w1 (zip input_filenames output_filenames) with
              | (w2, Raise e) => (w2, Raise e)
              | (w2, Ok _) => (w2, Ok 0)
              end
        end
    | Raise e, _ | _, Raise e => (w, Raise e)
    end.

(** [if __name__ == "__main__": main()]: the value [main] returns is
    dropped; the interpreter exits with status 0 when the module body
    finishes and with status 1 on an uncaught exception. *)
Definition run_script (w : World) (argv : list string) : World * Z :=
  match main w argv with
  | (w', Ok _) => (w', 0)
  | (w', Raise _) => (w', 1)
  end.

End Main.

(** The sum of squares of a segment. *)
Definition energy (xs : list Q) : Q := np_sum (np_square xs).

(** ** Loop invariants

    The invariant of the sliding loop.  Before iteration [i] the windows
    starting at [0 .. i-1] have been examined: the running sum is the
    energy of window [i-1], the best volume is the energy of the best
    window, no examined window is louder, and every window left of the
    best one is strictly quieter. *)
Definition slide_inv (l : list Q) (d i : Z) (st : LoopState) : Prop :=
  1 <= i
  ∧ 0 <= loudest_start_index st <= i - 1
  ∧ (current_volume_sum st == window_energy l d (i - 1))%Q
  ∧ (loudest_volume st == window_energy l d (loudest_start_index st))%Q
  ∧ (∀ j, 0 <= j <= i - 1 →
       (window_energy l d j <= loudest_volume st)%Q)
  ∧ (∀ j, 0 <= j < loudest_start_index st →
       (window_energy l d j < loudest_volume st)%Q).

(** The relation kept between the sliding loop and the naive loop: the
    running sum is the energy of the window just examined, and both loops
    hold the same best volume and the same best index. *)
Definition slide_naive_rel (l : list Q) (d i : Z) (st : LoopState)
    (nv : Q * Z) : Prop :=
  1 <= i
  ∧ (current_volume_sum st == window_energy l d (i - 1))%Q
  ∧ (loudest_volume st == fst nv)%Q
  ∧ loudest_start_index st = snd nv.

(** ** Example files

    Two quiet mono frames at 2000 Hz; one mono frame of amplitude 2 at
    1 Hz; four stereo frames at 2000 Hz. *)
Definition quiet_wav : Wav := mkWav [[1 # 1000]; [-1 # 1000]]%Q 2000.

Definition quiet_world : World :=
  mkWorld {[ "quiet.wav"%string := quiet_wav ]} (fun _ _ _ => true) (fun _ x => x) [].


Definition stereo_wav : Wav :=
  mkWav [[0; 0]; [1 # 2; -1 # 4]; [-1 # 2; 1 # 4]; [0; 1 # 10]]%Q 2000.

Definition stereo_world : World :=
  mkWorld {[ "stereo.wav"%string := stereo_wav ]} (fun _ _ _ => true) (fun _ x => x) [].

Definition stereo_saved_world : World :=
  print (mkWorld (<["out/stereo.wav"%string :=
                    mkWav [[1 # 2; -1 # 4]; [-1 # 2; 1 # 4]]%Q 2000]>
                    (files stereo_world))
                 (writable stereo_world) (requantise stereo_world)
                 (stdout stereo_world))
        (MsgSaved "out/stereo.wav").

(** * The same functions over the arithmetic of the sample array

    The definitions above compute on samples with exact rational
    arithmetic.  The script itself computes in the floating-point format of
    its input: binary32 for the arrays [sf.read(..., dtype='float32')]
    returns, binary64 for a Python list of floats.  The functions are
    therefore embedded a second time over an abstract arithmetic, of which
    exact arithmetic and the IEEE formats are instances. *)

Record Arith : Type := mkArith {
  num : Type;
  of_sample : Q → num;           (* a decoded sample as an array element *)
  amul : num → num → num;
  aadd : num → num → num;
  asub : num → num → num;
  aabs : num → num;
  agt : num → num → bool;        (* [x > y] *)
  asum : list num → num;         (* [np.sum] of a one-dimensional array *)
  adiv : num → Z → num;          (* [x / n] for a count [n] *)
  to_npfloat : num → npfloat     (* the value as a numpy scalar *)
}.

(** Exact arithmetic on rationals. *)
Definition exact_arith : Arith :=
  mkArith Q (fun q => q) Qmult Qplus Qminus Qabs Qgtb np_sum
          (fun x n => x / inject_Z n)%Q Finite.

(** ** IEEE binary formats *)

Record Format : Type := mkFormat {
  precision : Z;   (* bits of the significand *)
  emin : Z;        (* exponent of the smallest positive value *)
  emax : Z         (* values are below [2 ^ emax] in magnitude *)
}.

Definition binary32 : Format := mkFormat 24 (-149) 128.
Definition binary64 : Format := mkFormat 53 (-1074) 1024.

(** [m * 2 ^ e] as a rational. *)
Definition dyadic (m e : Z) : Q :=
  if 0 <=? e then inject_Z (m * 2 ^ e) else m # Z.to_pos (2 ^ (- e)).

(** Rounding of an exact result to the format: to nearest, ties to even,
    subnormals below [2 ^ (emin + precision - 1)], an infinity when the
    rounded magnitude reaches [2 ^ emax]. *)
Definition round_to (fmt : Format) (x : Q) : npfloat :=
  let n := Z.abs (Qnum x) in
  let d := Zpos (Qden x) in
  if n =? 0 then Finite 0
  else
    let e := Z.max (ilog2_ratio n d - (precision fmt - 1)) (emin fmt) in
    let m := if 0 <=? e then round_half_even n (d * 2 ^ e)
             else round_half_even (n * 2 ^ (- e)) d in
    if (0 <=? e) && (2 ^ emax fmt <=? m * 2 ^ e)
    then Infinity (Qnum x <? 0)
    else Finite (dyadic (Z.sgn (Qnum x) * m) e).

Definition fl_opp (x : npfloat) : npfloat :=
  match x with
  | Finite q => Finite (- q)
  | NaN => NaN
  | Infinity negative => Infinity (negb negative)
  end.

Definition fl_add (fmt : Format) (x y : npfloat) : npfloat :=
  match x, y with
  | NaN, _ | _, NaN => NaN
  | Finite p, Finite q => round_to fmt (p + q)
  | Infinity a, Finite _ | Finite _, Infinity a => Infinity a
  | Infinity a, Infinity b => if Bool.eqb a b then Infinity a else NaN
  end.

Definition fl_sub (fmt : Format) (x y : npfloat) : npfloat :=
  fl_add fmt x (fl_opp y).

Definition Qis_zero (q : Q) : bool := Qnum q =? 0.

Definition Qis_neg (q : Q) : bool := Qnum q <? 0.

Definition fl_mul (fmt : Format) (x y : npfloat) : npfloat :=
  match x, y with
  | NaN, _ | _, NaN => NaN
  | Finite p, Finite q => round_to fmt (p * q)
  | Infinity a, Finite q | Finite q, Infinity a =>
      if Qis_zero q then NaN else Infinity (xorb a (Qis_neg q))
  | Infinity a, Infinity b => Infinity (xorb a b)
  end.

Definition fl_abs (x : npfloat) : npfloat :=
  match x with
  | Finite q => Finite (Qabs q)
  | NaN => NaN
  | Infinity _ => Infinity false
  end.

(** [x > y]; false when either side is [nan]. *)
Definition fl_gt (x y : npfloat) : bool :=
  match x, y with
  | NaN, _ | _, NaN => false
  | Finite p, Finite q => Qgtb p q
  | Infinity a, Finite _ => negb a
  | Finite _, Infinity b => b
  | Infinity a, Infinity b => negb a && b
  end.

(** [x / n] for a positive count [n], or for [n = 0] the [0 / 0] of the
    mean of an empty array.  The count is taken as it is: numpy converts
    it to the format, which changes nothing up to [2 ^ precision]. *)
Definition fl_div_count (fmt : Format) (x : npfloat) (n : Z) : npfloat :=
  match x with
  | Finite q => if n =? 0 then NaN else round_to fmt (q / inject_Z n)
  | NaN => NaN
  | Infinity a => Infinity a
  end.

(** ** numpy's pairwise summation

    [np.sum] adds a contiguous one-dimensional float array with the
    routine below: fewer than 8 elements in order, up to 128 elements with
    eight running sums, longer arrays split in two. *)
Section Pairwise.

Context {T : Type} (op : T → T → T) (zero : T).

Definition sum_loop (res : T) (a : list T) : T := fold_left op a res.

(** [r[k] += a[i + k]] for [k = 0 .. 7], over [blocks] blocks of eight. *)
Fixpoint add_blocks (blocks : nat) (r a : list T) : list T :=
  match blocks with
  | O => r
  | S k => add_blocks k (zip_with op r (take 8 a)) (drop 8 a)
  end.

Definition combine8 (r : list T) : T :=
  match r with
  | [r0; r1; r2; r3; r4; r5; r6; r7] =>
      op (op (op r0 r1) (op r2 r3)) (op (op r4 r5) (op r6 r7))
  | _ => zero
  end.

Fixpoint pairwise_sum (fuel : nat) (a : list T) : T :=
  let n := length a in
  if (n <? 8)%nat then sum_loop zero a
  else if (n <=? 128)%nat then
    let full := (n - n mod 8)%nat in
    let r := add_blocks (full / 8 - 1) (take 8 a) (drop 8 a) in
    sum_loop (combine8 r) (drop full a)
  else
    match fuel with
    | O => zero
    | S fuel' =>
        let n2 := (n / 2 - (n / 2) mod 8)%nat in
        op (pairwise_sum fuel' (take n2 a)) (pairwise_sum fuel' (drop n2 a))
    end.

End Pairwise.

(** [np.sum]: the result starts at 0 and the pairwise sum is added. *)
Definition fl_sum (fmt : Format) (a : list npfloat) : npfloat :=
  fl_add fmt (Finite 0)
         (pairwise_sum (fl_add fmt) (Finite 0) (length a) a).

(** The arithmetic of an array of the given format.  Decoding converts
    each sample to the format. *)
Definition ieee_arith (fmt : Format) : Arith :=
  mkArith npfloat (round_to fmt) (fl_mul fmt) (fl_add fmt) (fl_sub fmt)
          fl_abs fl_gt (fl_sum fmt) (fl_div_count fmt) (fun x => x).

(** ** The locator and the trimmer over an arithmetic

    The same code as above with every operation on samples taken from the
    arithmetic.  [min_volume] is a Python float and is compared with the
    computed mean as the number it is. *)

Section OverArith.

Variable A : Arith.

Record LoopStateIn : Type := mkLoopStateIn {
  current_volume_sum_in : num A;
  loudest_volume_in : num A;
  loudest_start_index_in : Z
}.

Definition slide_step_in (input_samples : list (num A)) (desired_samples : Z)
    (st : LoopStateIn) (i : Z) : result LoopStateIn :=
  trailing_value ← py_index input_samples (i - 1);
  leading_value ← py_index input_samples (i + desired_samples - 1);
  let cur := asub A (current_volume_sum_in st)
                 (amul A trailing_value trailing_value) in
  let cur := aadd A cur (amul A leading_value leading_value) in
  if agt A cur (loudest_volume_in st)
  then Ok (mkLoopStateIn cur cur i)
  else Ok (mkLoopStateIn cur (loudest_volume_in st)
                         (loudest_start_index_in st)).

Definition trim_to_loudest_segment_indices_in (input_samples : list (num A))
    (desired_samples : Z) : result (Z * Z) :=
  let input_size := len input_samples in
  if input_size <=? desired_samples then Ok (0, input_size)
  else
    let current :=
      asum A (map (fun x => amul A x x)
                 (py_slice input_samples 0 desired_samples)) in
    let st0 := mkLoopStateIn current current 0 in
    st ← for_each (slide_step_in input_samples desired_samples)
                  (py_range 1 (input_size - desired_samples + 1)) st0;
    let loudest_end_index := loudest_start_index_in st + desired_samples in
    Ok (loudest_start_index_in st, loudest_end_index).

(** [wav_samples.mean(axis=1)] *)
Definition mean_axis1_in (a : list (list Q)) : list (num A) :=
  map (fun row => adiv A (asum A (map (of_sample A) row)) (len row)) a.

(** [np.mean] of a one-dimensional array; [nan] when it is empty. *)
Definition np_mean_in (xs : list (num A)) : npfloat :=
  match xs with
  | [] => NaN
  | _ => to_npfloat A (adiv A (asum A xs) (len xs))
  end.

Definition trim_file_in (w : World) (input_filename output_filename : string)
    (desired_length_ms : Z) (min_volume : Q) : result World :=
  match sf_read w input_filename with
  | None => Ok (print w (MsgDecodeFailed input_filename))
  | Some wav =>
      let mono_samples := mean_axis1_in (wav_samples wav) in
      desired_samples ← desired_samples_of desired_length_ms (sample_rate wav);
      idx ← trim_to_loudest_segment_indices_in mono_samples desired_samples;
      let start_idx := fst idx in
      let end_idx := snd idx in
      let trimmed_mono_samples := py_slice mono_samples start_idx end_idx in
      let average_volume :=
        np_mean_in (map (aabs A) trimmed_mono_samples) in
      if npfloat_ltb average_volume min_volume
      then Ok (print w (MsgSkipped input_filename average_volume))
      else
        let trimmed_samples := py_slice (wav_samples wav) start_idx end_idx in
        match sf_write w output_filename trimmed_samples (sample_rate wav) with
        | Some w' => Ok (print w' (MsgSaved output_filename))
        | None => Ok (print w (MsgWriteFailed output_filename))
        end
  end.

End OverArith.

(** Results related by [R] on values, equal on exceptions. *)
Definition result_rel {S T : Type} (R : S → T → Prop) (x : result S)
    (y : result T) : Prop :=
  match x, y with
  | Ok a, Ok b => R a b
  | Raise e, Raise e' => e = e'
  | _, _ => False
  end.

(** The loop state over exact arithmetic and the loop state above hold
    the same values. *)
Definition same_state (s : LoopStateIn exact_arith) (t : LoopState) : Prop :=
  current_volume_sum_in exact_arith s = current_volume_sum t
  ∧ loudest_volume_in exact_arith s = loudest_volume t
  ∧ loudest_start_index_in exact_arith s = loudest_start_index t.

(** Whether a rational is a value of the format. *)
Definition is_representable (fmt : Format) (x : Q) : bool :=
  match round_to fmt x with
  | Finite q => Qeq_bool q x
  | _ => false
  end.

(** ** Example inputs in floating point

    Three binary32 samples whose squares need more than 24 bits; the
    Python list [[0.1, 0.1, 0.3, 0.1]] as binary64 values. *)
Definition binary32_drift_samples : list Q :=
  [1 # 32768; 8193 # 32768; 2 # 32768]%Q.

Definition binary64_tie_samples : list Q :=
  [7205759403792794 # 72057594037927936;
   7205759403792794 # 72057594037927936;
   5404319552844595 # 18014398509481984;
   7205759403792794 # 72057594037927936]%Q.

(** A 16-bit PCM encoder: scaled by [2^15], rounded to the nearest
    integer, clipped to the range of a 16-bit integer. *)
Definition pcm16 (x : Q) : Q :=
  let scaled := (x * 32768)%Q in
  let r := Z.sgn (Qnum scaled)
           * round_half_even (Z.abs (Qnum scaled)) (Zpos (Qden scaled)) in
  Z.max (-32768) (Z.min 32767 r) # 32768.

(** One mono frame holding the binary32 value nearest to 0.004, at
    8000 Hz; three mono frames around it.  Output files are 16-bit PCM. *)
Definition threshold_wav : Wav := mkWav [[8589935 # 2147483648]]%Q 8000.

Definition threshold_world : World :=
  mkWorld {[ "in.wav"%string := threshold_wav ]} (fun _ _ _ => true)
          (fun _ => pcm16) [].





(** The world after the one-frame file has been trimmed to [out.wav]. *)
Definition threshold_saved_world : World :=
  print (mkWorld (<["out.wav"%string := mkWav [[131 # 32768]]%Q 8000]>
                    (files threshold_world))
                 (writable threshold_world) (requantise threshold_world)
                 (stdout threshold_world))
        (MsgSaved "out.wav").

(** Four mono frames whose arithmetic mean is above 0.004 and whose
    binary32 mean is below it. *)
Definition rounded_down_wav : Wav :=
  mkWav [[8589934 # 2147483648]; [8589934 # 2147483648];
         [8589937 # 2147483648]; [8589934 # 2147483648]]%Q 8000.

Definition rounded_down_world : World :=
  mkWorld {[ "in.wav"%string := rounded_down_wav ]} (fun _ _ _ => true)
          (fun _ => pcm16) [].

(** ** Definitions used by the further properties *)

(** The negation of a float. *)
Definition float64_opp (x : float64) : float64 :=
  mkFloat64 (- mantissa x) (exponent x).

(** Every decodable file has a sample rate in [0, 2^44). *)
Definition rates_ok (w : World) : Prop :=
  map_Forall (fun _ wav => 0 <= sample_rate wav < 2 ^ 44) (files w).

(** An example operating system: three matched files, paths of the form
    [dir/base] with a two-letter input directory and the output root
    [out]. *)
Definition example_glob (w : World) (pattern : string) : list string :=
  ["in/stereo.wav"; "in/quiet.wav"; "in/missing.wav"]%string.

Definition example_split (path : string) : string * string :=
  (substring 0 2 path, substring 3 (String.length path - 3) path).

Definition example_join (root base : string) : string :=
  (root +:+ "/" +:+ base)%string.

Definition example_dirname (path : string) : string := substring 0 3 path.

Definition example_makedirs (w : World) (dir : string) : result World := Ok w.

Definition batch_world : World :=
  mkWorld {[ "in/stereo.wav"%string := stereo_wav;
             "in/quiet.wav"%string := quiet_wav ]} (fun _ _ _ => true) (fun _ x => x) [].

(** * Properties *)

(** ** Sequences *)

Lemma len_nonneg {A : Type} (l : list A) : 0 <= len l.
Proof. unfold len. lia. Qed.

Lemma py_index_in_range {A : Type} (l : list A) (i : Z) :
  0 <= i < len l →
  ∃ x, l !! Z.to_nat i = Some x ∧ py_index l i = Ok x.
Proof.
  intros Hi. unfold py_index.
  destruct (Z.ltb_spec i 0) as [Hneg | _]; [lia |].
  destruct (Z.ltb_spec i 0) as [Hneg | _]; [lia |].
  destruct (Z.leb_spec (len l) i) as [Hge | _]; [lia |]. simpl.
  destruct (l !! Z.to_nat i) as [x |] eqn:Hx.
  - exists x. split; reflexivity.
  - apply lookup_ge_None in Hx. unfold len in Hi. lia.
Qed.

Lemma py_clamp_in_range (n i : Z) : 0 <= i <= n → py_clamp n i = i.
Proof.
  intros Hi. unfold py_clamp.
  destruct (Z.ltb_spec i 0); lia.
Qed.

Lemma py_slice_in_range {A : Type} (l : list A) (a b : Z) :
  0 <= a → a <= b → b <= len l →
  py_slice l a b = take (Z.to_nat (b - a)) (drop (Z.to_nat a) l).
Proof.
  intros Ha Hab Hb. unfold py_slice.
  rewrite !py_clamp_in_range by lia. reflexivity.
Qed.

Lemma py_range_nil (a b : Z) : b <= a → py_range a b = [].
Proof.
  intros H. unfold py_range.
  replace (Z.to_nat (b - a)) with 0%nat by lia. reflexivity.
Qed.

Lemma py_range_cons (a b : Z) :
  a < b → py_range a b = a :: py_range (a + 1) b.
Proof.
  intros H. unfold py_range.
  replace (Z.to_nat (b - a)) with (S (Z.to_nat (b - (a + 1)))) by lia.
  simpl. f_equal; [lia |].
  rewrite <- seq_shift, map_map.
  apply map_ext. intros k. lia.
Qed.

Lemma py_range_bounds (a b i : Z) : i ∈ py_range a b → a <= i < b.
Proof.
  unfold py_range. intros Hin.
  apply list_elem_of_In, in_map_iff in Hin as (k & <- & Hk).
  apply in_seq in Hk. lia.
Qed.

(** ** Loops *)

(** A loop over [range(a, b)] whose body keeps an invariant indexed by the
    loop counter never raises and ends with the invariant at [b]. *)
Lemma for_each_invariant {S : Type} (body : S → Z → result S)
    (P : Z → S → Prop) (b : Z) :
  (∀ i st, i < b → P i st → ∃ st', body st i = Ok st' ∧ P (i + 1) st') →
  ∀ (k : nat) (a : Z) (st : S),
    Z.of_nat k = b - a → P a st →
    ∃ st', for_each body (py_range a b) st = Ok st' ∧ P b st'.
Proof.
  intros Hstep k. induction k as [| k IH]; intros a st Hk HP.
  - rewrite py_range_nil by lia. exists st. split; [reflexivity |].
    replace b with a by lia. exact HP.
  - rewrite py_range_cons by lia. simpl.
    destruct (Hstep a st) as (st1 & Hb & HP1); [lia | exact HP |].
    rewrite Hb. simpl. apply IH; [lia | exact HP1].
Qed.

(** Loops with pointwise equal bodies are equal. *)
Lemma for_each_ext {S : Type} (body1 body2 : S → Z → result S) :
  (∀ st i, body1 st i = body2 st i) →
  ∀ idxs st, for_each body1 idxs st = for_each body2 idxs st.
Proof.
  intros Hext idxs. induction idxs as [| i rest IH]; intros st.
  - reflexivity.
  - simpl. rewrite Hext. destruct (body2 st i) as [st' | e]; simpl.
    + apply IH.
    + reflexivity.
Qed.

(** Two loops over the same range whose bodies preserve a relation between
    their states run in lockstep. *)
Lemma for_each_lockstep {S T : Type} (body1 : S → Z → result S)
    (body2 : T → Z → result T) (R : Z → S → T → Prop) (b : Z) :
  (∀ i s t, i < b → R i s t →
     ∃ s' t', body1 s i = Ok s' ∧ body2 t i = Ok t' ∧ R (i + 1) s' t') →
  ∀ (k : nat) (a : Z) (s : S) (t : T),
    Z.of_nat k = b - a → R a s t →
    ∃ s' t', for_each body1 (py_range a b) s = Ok s'
             ∧ for_each body2 (py_range a b) t = Ok t' ∧ R b s' t'.
Proof.
  intros Hstep k. induction k as [| k IH]; intros a s t Hk HR.
  - rewrite py_range_nil by lia. exists s, t.
    replace b with a by lia. auto.
  - rewrite py_range_cons by lia. simpl.
    destruct (Hstep a s t) as (s1 & t1 & H1 & H2 & HR1); [lia | exact HR |].
    rewrite H1, H2. simpl. apply IH; [lia | exact HR1].
Qed.

(** The loop bodies of the two copies of the locator do the same. *)
Lemma slide_steps_agree (l : list Q) (d : Z) (st : LoopState) (i : Z) :
  slide_step l d st i = slide_step_indices l d st i.
Proof.
  unfold slide_step, slide_step_indices.
  destruct (py_index l (i - 1)) as [t | e]; [| reflexivity]. simpl.
  destruct (py_index l (i + d - 1)) as [x | e]; reflexivity.
Qed.

(** ** Window energies *)

Lemma Qgtb_spec (a b : Q) : Qgtb a b = true ↔ (b < a)%Q.
Proof. unfold Qgtb, Qlt. apply Z.ltb_lt. Qed.

Lemma Qgtb_false (a b : Q) : Qgtb a b = false ↔ (a <= b)%Q.
Proof. unfold Qgtb, Qle. apply Z.ltb_ge. Qed.

Lemma energy_cons (x : Q) (xs : list Q) :
  energy (x :: xs) = (x * x + energy xs)%Q.
Proof. reflexivity. Qed.

(** Sliding a window of [d] samples by one: the sample at [k] leaves and
    the sample at [k + d] enters. *)
Lemma energy_slide (l : list Q) (d k : nat) (t x : Q) :
  l !! k = Some t → l !! (k + d)%nat = Some x →
  (energy (take d (drop (S k) l))
   == energy (take d (drop k l)) - t * t + x * x)%Q.
Proof.
  revert k t. induction d as [| d IH]; intros k t Ht Hx.
  - rewrite Nat.add_0_r in Hx. rewrite Ht in Hx. injection Hx as ->.
    rewrite !take_0. unfold energy. simpl. ring.
  - destruct (l !! S k) as [t' |] eqn:Ht'.
    2:{ apply lookup_ge_None in Ht'. apply lookup_lt_Some in Hx. lia. }
    rewrite (drop_S l t k Ht), (drop_S l t' (S k) Ht'). simpl.
    rewrite !energy_cons, <- (drop_S l t' (S k) Ht').
    rewrite (IH (S k) t' Ht') by (rewrite <- Hx; f_equal; lia).
    ring.
Qed.

Lemma window_energy_in_range (l : list Q) (d j : Z) :
  0 <= d → 0 <= j → j + d <= len l →
  window_energy l d j = energy (take (Z.to_nat d) (drop (Z.to_nat j) l)).
Proof.
  intros Hd Hj Hjd. unfold window_energy.
  rewrite py_slice_in_range by lia.
  replace (j + d - j) with d by lia. reflexivity.
Qed.

(** The two reads of one loop iteration succeed, and the updated running
    sum is the energy of the window that starts at [i]. *)
Lemma window_slide (l : list Q) (d i : Z) :
  0 <= d → 1 <= i → i + d <= len l →
  ∃ t x, py_index l (i - 1) = Ok t
         ∧ py_index l (i + d - 1) = Ok x
         ∧ (window_energy l d i
            == window_energy l d (i - 1) - t * t + x * x)%Q.
Proof.
  intros Hd Hi Hid.
  destruct (py_index_in_range l (i - 1)) as (t & Ht & Hpt); [lia |].
  destruct (py_index_in_range l (i + d - 1)) as (x & Hx & Hpx); [lia |].
  exists t, x. split; [exact Hpt |]. split; [exact Hpx |].
  rewrite !window_energy_in_range by lia.
  replace (Z.to_nat i) with (S (Z.to_nat (i - 1))) by lia.
  apply energy_slide; [exact Ht |].
  rewrite <- Hx. f_equal. lia.
Qed.

Lemma slide_inv_init (l : list Q) (d : Z) :
  slide_inv l d 1
    (mkLoopState (window_energy l d 0) (window_energy l d 0) 0).
Proof.
  unfold slide_inv. simpl.
  split; [lia |]. split; [lia |].
  split; [reflexivity |]. split; [reflexivity |]. split.
  - intros j Hj. replace j with 0 by lia. apply Qle_refl.
  - intros j Hj. lia.
Qed.

Lemma slide_step_inv (l : list Q) (d i : Z) (st : LoopState) :
  0 <= d → i < len l - d + 1 → slide_inv l d i st →
  ∃ st', slide_step_indices l d st i = Ok st' ∧ slide_inv l d (i + 1) st'.
Proof.
  intros Hd Hi (H1 & Hidx & Hcur & Hloud & Hmax & Hleft).
  destruct (window_slide l d i) as (t & x & Ht & Hx & Hw); [lia .. |].
  unfold slide_step_indices. rewrite Ht. simpl. rewrite Hx. simpl.
  set (cur := (current_volume_sum st - t * t + x * x)%Q).
  assert (Hcur' : (cur == window_energy l d i)%Q).
  { unfold cur. rewrite Hcur, Hw. reflexivity. }
  replace (i + 1 - 1) with i by lia.
  destruct (Qgtb cur (loudest_volume st)) eqn:Hcmp.
  - apply Qgtb_spec in Hcmp.
    eexists. split; [reflexivity |]. unfold slide_inv. simpl.
    replace (i + 1 - 1) with i by lia.
    repeat split; try lia; try exact Hcur'.
    + intros j Hj. destruct (Z.eq_dec j i) as [-> | Hne].
      * rewrite Hcur'. apply Qle_refl.
      * apply Qle_trans with (loudest_volume st).
        -- apply Hmax. lia.
        -- apply Qlt_le_weak, Hcmp.
    + intros j Hj. apply Qle_lt_trans with (loudest_volume st).
      * apply Hmax. lia.
      * exact Hcmp.
  - apply Qgtb_false in Hcmp.
    eexists. split; [reflexivity |]. unfold slide_inv. simpl.
    replace (i + 1 - 1) with i by lia.
    repeat split; try lia; try exact Hcur'; try exact Hloud.
    + intros j Hj. destruct (Z.eq_dec j i) as [-> | Hne].
      * rewrite <- Hcur'. exact Hcmp.
      * apply Hmax. lia.
    + exact Hleft.
Qed.

Lemma Qgtb_proper (a a' b b' : Q) :
  (a == a')%Q → (b == b')%Q → Qgtb a b = Qgtb a' b'.
Proof.
  intros Ha Hb.
  destruct (Qgtb a b) eqn:H1, (Qgtb a' b') eqn:H2; try reflexivity.
  - apply Qgtb_spec in H1. apply Qgtb_false in H2.
    rewrite Ha, Hb in H1. exfalso. exact (Qlt_not_le _ _ H1 H2).
  - apply Qgtb_false in H1. apply Qgtb_spec in H2.
    rewrite Ha, Hb in H1. exfalso. exact (Qlt_not_le _ _ H2 H1).
Qed.

(** What the locator returns when the window is shorter than the input:
    the loop runs to its end without raising, and the returned start is
    the leftmost window of maximal energy. *)
Lemma locator_spec (l : list Q) (d : Z) :
  0 <= d < len l →
  ∃ s, trim_to_loudest_segment_indices l d = Ok (s, s + d)
       ∧ 0 <= s <= len l - d
       ∧ (∀ j, 0 <= j <= len l - d →
            (window_energy l d j <= window_energy l d s)%Q)
       ∧ (∀ j, 0 <= j < s →
            (window_energy l d j < window_energy l d s)%Q).
Proof.
  intros Hd. unfold trim_to_loudest_segment_indices.
  destruct (Z.leb_spec (len l) d) as [Hge | _]; [lia |].
  change (np_sum (np_square (py_slice l 0 d))) with (window_energy l d 0).
  destruct (for_each_invariant (slide_step_indices l d) (slide_inv l d)
              (len l - d + 1) (fun i st Hi => slide_step_inv l d i st (proj1 Hd) Hi)
              (Z.to_nat (len l - d)) 1
              (mkLoopState (window_energy l d 0) (window_energy l d 0) 0))
    as (st & Hrun & _ & Hidx & _ & Hloud & Hmax & Hleft);
    [lia | apply slide_inv_init |].
  rewrite Hrun. simpl.
  exists (loudest_start_index st). split; [reflexivity |].
  split; [lia |]. split.
  - intros j Hj. rewrite <- Hloud. apply Hmax. lia.
  - intros j Hj. rewrite <- Hloud. apply Hleft. exact Hj.
Qed.


(** ** The exact functions are the instance at exact arithmetic *)

Lemma for_each_related {S T : Type} (body1 : S → Z → result S)
    (body2 : T → Z → result T) (R : S → T → Prop) :
  (∀ s t i, R s t → result_rel R (body1 s i) (body2 t i)) →
  ∀ idxs s t, R s t →
    result_rel R (for_each body1 idxs s) (for_each body2 idxs t).
Proof.
  intros Hstep idxs. induction idxs as [| i rest IH]; intros s t HR; simpl.
  - exact HR.
  - specialize (Hstep s t i HR).
    destruct (body1 s i) as [s' | e1], (body2 t i) as [t' | e2];
      simpl in *; try contradiction.
    + apply IH. exact Hstep.
    + exact Hstep.
Qed.

Lemma exact_step_is_instance (l : list Q) (d : Z)
    (s : LoopStateIn exact_arith) (t : LoopState) (i : Z) :
  same_state s t →
  result_rel same_state (slide_step_in exact_arith l d s i)
             (slide_step_indices l d t i).
Proof.
  intros (Hcur & Hloud & Hidx). unfold slide_step_in, slide_step_indices.
  cbn [exact_arith num amul aadd asub agt] in *.
  destruct (py_index l (i - 1)) as [tv | e]; [| exact eq_refl].
  destruct (py_index l (i + d - 1)) as [lv | e]; [| exact eq_refl].
  cbn [mbind result_bind]. rewrite Hcur, Hloud, Hidx.
  destruct (Qgtb _ _); cbn; repeat split.
Qed.

Lemma exact_locator_is_instance (l : list Q) (d : Z) :
  trim_to_loudest_segment_indices_in exact_arith l d
  = trim_to_loudest_segment_indices l d.
Proof.
  unfold trim_to_loudest_segment_indices_in, trim_to_loudest_segment_indices.
  cbn [exact_arith num amul asum].
  change (map (fun x : Q => (x * x)%Q) (py_slice l 0 d))
    with (np_square (py_slice l 0 d)).
  destruct (len l <=? d); [reflexivity |].
  pose proof (for_each_related (slide_step_in exact_arith l d)
                (slide_step_indices l d) same_state
                (exact_step_is_instance l d)
                (py_range 1 (len l - d + 1))
                (mkLoopStateIn exact_arith
                   (np_sum (np_square (py_slice l 0 d)))
                   (np_sum (np_square (py_slice l 0 d))) 0)
                (mkLoopState (np_sum (np_square (py_slice l 0 d)))
                             (np_sum (np_square (py_slice l 0 d))) 0)
                ltac:(repeat split)) as Hrel.
  destruct (for_each (slide_step_in exact_arith l d) _ _) as [s | e1],
           (for_each (slide_step_indices l d) _ _) as [t | e2];
    simpl in *; try contradiction.
  - destruct Hrel as (_ & _ & ->). reflexivity.
  - rewrite Hrel. reflexivity.
Qed.

(** ** The locator *)

(** C1 (as amended): in exact arithmetic, for
    [0 <= desired_samples < len input_samples] the locator returns a pair
    [(start, end)] with [end = start + desired_samples] inside the input
    such that the sum of squares over [input_samples[start:end]] is at
    least the sum of squares over [input_samples[j : j + desired_samples]]
    for every [0 <= j <= len input_samples - desired_samples]. *)
Theorem loudest_segment_is_maximal (input_samples : list Q)
    (desired_samples : Z) :
  0 <= desired_samples < len input_samples →
  ∃ start stop,
    trim_to_loudest_segment_indices_in exact_arith input_samples
      desired_samples = Ok (start, stop)
    ∧ stop = start + desired_samples
    ∧ 0 <= start ∧ stop <= len input_samples
    ∧ ∀ j, 0 <= j <= len input_samples - desired_samples →
        (np_sum (np_square (py_slice input_samples j (j + desired_samples)))
         <= np_sum (np_square (py_slice input_samples start stop)))%Q.
Proof.
  intros Hd. rewrite exact_locator_is_instance.
  destruct (locator_spec input_samples desired_samples Hd)
    as (s & Hret & Hs & Hmax & _).
  exists s, (s + desired_samples). split; [exact Hret |].
  split; [reflexivity |]. split; [lia |]. split; [lia |].
  intros j Hj. exact (Hmax j Hj).
Qed.

Lemma loudest_segment_is_maximal_witness :
  0 <= 2 < len [1; 3; -2; 1]%Q
  ∧ ∃ start stop,
      trim_to_loudest_segment_indices_in exact_arith [1; 3; -2; 1]%Q 2
        = Ok (start, stop)
      ∧ stop = start + 2
      ∧ 0 <= start ∧ stop <= len [1; 3; -2; 1]%Q
      ∧ ∀ j, 0 <= j <= len [1; 3; -2; 1]%Q - 2 →
          (np_sum (np_square (py_slice [1; 3; -2; 1]%Q j (j + 2)))
           <= np_sum (np_square (py_slice [1; 3; -2; 1]%Q start stop)))%Q.
Proof.
  split; [unfold len; simpl; lia |].
  apply (loudest_segment_is_maximal [1; 3; -2; 1]%Q 2).
  unfold len; simpl; lia.
Defined.

(** C1 as first stated fails on the code, which computes in the format of
    its input.  The binary32 samples 1/32768, 8193/32768, 2/32768 with
    [desired_samples = 2]: every sum the loop forms rounds to
    67125248 / 2^30, the comparison never fires and (0, 2) is returned,
    while the window starting at 1 has the larger sum of squares. *)
Lemma loudest_segment_not_maximal_in_binary32 :
  forallb (is_representable binary32) binary32_drift_samples = true
  ∧ 0 <= 2 < len binary32_drift_samples
  ∧ trim_to_loudest_segment_indices_in (ieee_arith binary32)
      (map (round_to binary32) binary32_drift_samples) 2 = Ok (0, 2)
  ∧ 0 <= 1 <= len binary32_drift_samples - 2
  ∧ ¬ (np_sum (np_square (py_slice binary32_drift_samples 1 (1 + 2)))
       <= np_sum (np_square (py_slice binary32_drift_samples 0 2)))%Q.
Proof.
  split; [vm_compute; reflexivity |].
  split; [unfold len; simpl; lia |].
  split; [vm_compute; reflexivity |].
  split; [unfold len; simpl; lia |].
  vm_compute. intros H. apply H. reflexivity.
Qed.

(** C2 (as amended): in exact arithmetic, for
    [0 <= desired_samples < len input_samples] the returned start is the
    smallest start index among the windows of maximal energy; for the
    input [1,1,1,1] and [desired_samples = 2] the result is (0, 2), in
    exact arithmetic and in binary32 and binary64 alike. *)
Theorem loudest_segment_is_leftmost :
  (∀ (input_samples : list Q) (desired_samples : Z),
     0 <= desired_samples < len input_samples →
     ∃ start,
       trim_to_loudest_segment_indices_in exact_arith input_samples
         desired_samples = Ok (start, start + desired_samples)
       ∧ 0 <= start <= len input_samples - desired_samples
       ∧ (∀ j, 0 <= j <= len input_samples - desired_samples →
            (window_energy input_samples desired_samples j
             <= window_energy input_samples desired_samples start)%Q)
       ∧ (∀ j, 0 <= j <= len input_samples - desired_samples →
            (∀ k, 0 <= k <= len input_samples - desired_samples →
               (window_energy input_samples desired_samples k
                <= window_energy input_samples desired_samples j)%Q) →
            start <= j))
  ∧ trim_to_loudest_segment_indices_in exact_arith [1; 1; 1; 1]%Q 2
    = Ok (0, 2)
  ∧ trim_to_loudest_segment_indices_in (ieee_arith binary32)
      (map (round_to binary32) [1; 1; 1; 1]%Q) 2 = Ok (0, 2)
  ∧ trim_to_loudest_segment_indices_in (ieee_arith binary64)
      (map (round_to binary64) [1; 1; 1; 1]%Q) 2 = Ok (0, 2).
Proof.
  split; [| repeat split; vm_compute; reflexivity].
  intros l d Hd. rewrite exact_locator_is_instance.
  destruct (locator_spec l d Hd) as (s & Hret & Hs & Hmax & Hleft).
  exists s. split; [exact Hret |]. split; [exact Hs |].
  split; [exact Hmax |].
  intros j Hj Hjmax.
  destruct (Z_le_gt_dec s j) as [Hle | Hgt]; [exact Hle |].
  exfalso. apply (Qlt_not_le _ _ (Hleft j ltac:(lia))).
  apply Hjmax. exact Hs.
Qed.

Lemma loudest_segment_is_leftmost_witness :
  0 <= 2 < len [1; 2; 0; 2; 1]%Q
  ∧ ∃ start,
      trim_to_loudest_segment_indices_in exact_arith [1; 2; 0; 2; 1]%Q 2
        = Ok (start, start + 2)
      ∧ 0 <= start <= len [1; 2; 0; 2; 1]%Q - 2
      ∧ (∀ j, 0 <= j <= len [1; 2; 0; 2; 1]%Q - 2 →
           (window_energy [1; 2; 0; 2; 1]%Q 2 j
            <= window_energy [1; 2; 0; 2; 1]%Q 2 start)%Q)
      ∧ (∀ j, 0 <= j <= len [1; 2; 0; 2; 1]%Q - 2 →
           (∀ k, 0 <= k <= len [1; 2; 0; 2; 1]%Q - 2 →
              (window_energy [1; 2; 0; 2; 1]%Q 2 k
               <= window_energy [1; 2; 0; 2; 1]%Q 2 j)%Q) →
           start <= j).
Proof.
  split; [unfold len; simpl; lia |].
  apply (proj1 loudest_segment_is_leftmost [1; 2; 0; 2; 1]%Q 2).
  unfold len; simpl; lia.
Defined.

(** C2 as first stated fails on the code.  The Python list
    [[0.1, 0.1, 0.3, 0.1]] with [desired_samples = 3]: the two windows hold
    the same three values, so both are maximal and the smallest start is
    0, but in binary64 the running sum of the second window comes out one
    unit in the last place above the first and (1, 4) is returned. *)
Lemma loudest_segment_not_leftmost_in_binary64 :
  map (round_to binary64) [1 # 10; 1 # 10; 3 # 10; 1 # 10]%Q
  = map Finite binary64_tie_samples
  ∧ 0 <= 3 < len binary64_tie_samples
  ∧ trim_to_loudest_segment_indices_in (ieee_arith binary64)
      (map Finite binary64_tie_samples) 3 = Ok (1, 4)
  ∧ ∃ j, 0 <= j <= len binary64_tie_samples - 3
         ∧ (∀ k, 0 <= k <= len binary64_tie_samples - 3 →
              (window_energy binary64_tie_samples 3 k
               <= window_energy binary64_tie_samples 3 j)%Q)
         ∧ j < 1.
Proof.
  split; [vm_compute; reflexivity |].
  split; [unfold len; simpl; lia |].
  split; [vm_compute; reflexivity |].
  exists 0. split; [unfold len; simpl; lia |]. split; [| lia].
  intros k Hk. unfold len in Hk. simpl in Hk.
  assert (k = 0 ∨ k = 1) as [-> | ->] by lia;
    vm_compute; intros H; discriminate H.
Qed.

(** C3: for [desired_samples >= len input_samples] (the empty input
    included) the locator returns exactly [(0, len input_samples)]. *)
Theorem whole_input_when_window_covers_it (input_samples : list Q)
    (desired_samples : Z) :
  len input_samples <= desired_samples →
  trim_to_loudest_segment_indices input_samples desired_samples
    = Ok (0, len input_samples).
Proof.
  intros Hge. unfold trim_to_loudest_segment_indices.
  destruct (Z.leb_spec (len input_samples) desired_samples); [reflexivity | lia].
Qed.

Lemma whole_input_when_window_covers_it_witness :
  len ([] : list Q) <= 0
  ∧ trim_to_loudest_segment_indices [] 0 = Ok (0, len ([] : list Q)).
Proof.
  split; [unfold len; simpl; lia |].
  apply (whole_input_when_window_covers_it [] 0).
  unfold len; simpl; lia.
Defined.

Lemma slide_naive_step (l : list Q) (d i : Z) (st : LoopState) (nv : Q * Z) :
  0 <= d → i < len l - d + 1 → slide_naive_rel l d i st nv →
  ∃ st' nv', slide_step_indices l d st i = Ok st'
             ∧ naive_step l d nv i = Ok nv'
             ∧ slide_naive_rel l d (i + 1) st' nv'.
Proof.
  intros Hd Hi (H1 & Hcur & Hloud & Hidx).
  destruct (window_slide l d i) as (t & x & Ht & Hx & Hw); [lia .. |].
  unfold slide_step_indices, naive_step. rewrite Ht. simpl. rewrite Hx. simpl.
  set (cur := (current_volume_sum st - t * t + x * x)%Q).
  assert (Hcur' : (cur == window_energy l d i)%Q).
  { unfold cur. rewrite Hcur, Hw. reflexivity. }
  rewrite (Qgtb_proper _ _ _ _ Hcur' Hloud).
  destruct (Qgtb (window_energy l d i) (fst nv)).
  - eexists _, _. split; [reflexivity |]. split; [reflexivity |].
    unfold slide_naive_rel. simpl. replace (i + 1 - 1) with i by lia.
    split; [lia |]. split; [exact Hcur' |]. split; [exact Hcur' | reflexivity].
  - eexists _, _. split; [reflexivity |]. split; [reflexivity |].
    unfold slide_naive_rel. simpl. replace (i + 1 - 1) with i by lia.
    split; [lia |]. split; [exact Hcur' |]. split; [exact Hloud | exact Hidx].
Qed.

(** C4: for [0 <= desired_samples < len input_samples] the incremental
    sliding-window locator returns the same pair as the naive reference
    that recomputes every window's sum of squares from scratch. *)
Theorem incremental_matches_naive (input_samples : list Q)
    (desired_samples : Z) :
  0 <= desired_samples < len input_samples →
  trim_to_loudest_segment_indices input_samples desired_samples
    = naive_loudest_segment input_samples desired_samples.
Proof.
  intros Hd. unfold trim_to_loudest_segment_indices, naive_loudest_segment.
  destruct (Z.leb_spec (len input_samples) desired_samples) as [Hge | _]; [lia |].
  change (np_sum (np_square (py_slice input_samples 0 desired_samples)))
    with (window_energy input_samples desired_samples 0).
  set (e0 := window_energy input_samples desired_samples 0).
  destruct (for_each_lockstep
              (slide_step_indices input_samples desired_samples)
              (naive_step input_samples desired_samples)
              (slide_naive_rel input_samples desired_samples)
              (len input_samples - desired_samples + 1)
              (fun i st nv Hi =>
                 slide_naive_step input_samples desired_samples i st nv
                   (proj1 Hd) Hi)
              (Z.to_nat (len input_samples - desired_samples)) 1
              (mkLoopState e0 e0 0) (e0, 0))
    as (st & nv & Hrun1 & Hrun2 & _ & _ & _ & Hidx).
  - lia.
  - unfold slide_naive_rel. simpl.
    split; [lia |]. split; [reflexivity |]. split; reflexivity.
  - rewrite Hrun1, Hrun2. simpl. rewrite Hidx. reflexivity.
Qed.

Lemma incremental_matches_naive_witness :
  0 <= 2 < len [1; 3; -2; 4; 0]%Q
  ∧ trim_to_loudest_segment_indices [1; 3; -2; 4; 0]%Q 2
    = naive_loudest_segment [1; 3; -2; 4; 0]%Q 2.
Proof.
  split; [unfold len; simpl; lia |].
  apply (incremental_matches_naive [1; 3; -2; 4; 0]%Q 2).
  unfold len; simpl; lia.
Defined.

(** C5: for [desired_samples >= 0] the locator never raises: it returns a
    range with [0 <= start <= end <= len input_samples], and every index
    read by the sliding loop, [i - 1] and [i + desired_samples - 1] for [i]
    in [range(1, len input_samples - desired_samples + 1)], is in bounds. *)
Theorem locator_never_raises (input_samples : list Q) (desired_samples : Z) :
  0 <= desired_samples →
  (∃ start stop,
     trim_to_loudest_segment_indices input_samples desired_samples
       = Ok (start, stop)
     ∧ 0 <= start <= stop ∧ stop <= len input_samples)
  ∧ (∀ i, i ∈ py_range 1 (len input_samples - desired_samples + 1) →
       0 <= i - 1 < len input_samples
       ∧ 0 <= i + desired_samples - 1 < len input_samples
       ∧ (∃ t, py_index input_samples (i - 1) = Ok t)
       ∧ (∃ x, py_index input_samples (i + desired_samples - 1) = Ok x)).
Proof.
  intros Hd. split.
  - destruct (Z_lt_le_dec desired_samples (len input_samples)) as [Hlt | Hge].
    + destruct (locator_spec input_samples desired_samples (conj Hd Hlt))
        as (s & Hret & Hs & _).
      exists s, (s + desired_samples). split; [exact Hret | lia].
    + exists 0, (len input_samples). split; [| pose proof (len_nonneg input_samples); lia].
      unfold trim_to_loudest_segment_indices.
      destruct (Z.leb_spec (len input_samples) desired_samples); [reflexivity | lia].
  - intros i Hi. apply py_range_bounds in Hi.
    destruct (py_index_in_range input_samples (i - 1)) as (t & _ & Ht); [lia |].
    destruct (py_index_in_range input_samples (i + desired_samples - 1))
      as (x & _ & Hx); [lia |].
    split; [lia |]. split; [lia |]. split; [exists t; exact Ht | exists x; exact Hx].
Qed.

Lemma locator_never_raises_witness :
  0 <= 3
  ∧ (∃ start stop,
       trim_to_loudest_segment_indices [1; -1; 2; 0; 5]%Q 3 = Ok (start, stop)
       ∧ 0 <= start <= stop ∧ stop <= len [1; -1; 2; 0; 5]%Q)
  ∧ (∀ i, i ∈ py_range 1 (len [1; -1; 2; 0; 5]%Q - 3 + 1) →
       0 <= i - 1 < len [1; -1; 2; 0; 5]%Q
       ∧ 0 <= i + 3 - 1 < len [1; -1; 2; 0; 5]%Q
       ∧ (∃ t, py_index [1; -1; 2; 0; 5]%Q (i - 1) = Ok t)
       ∧ (∃ x, py_index [1; -1; 2; 0; 5]%Q (i + 3 - 1) = Ok x)).
Proof.
  split; [lia |].
  apply (locator_never_raises [1; -1; 2; 0; 5]%Q 3). lia.
Defined.

(** C10: the two locator functions agree on every input, also where they
    raise: [trim_to_loudest_segment] and [trim_to_loudest_segment_indices]
    return the same result for every sample sequence and every integer
    [desired_samples]. *)
Theorem locators_agree (input_samples : list Q) (desired_samples : Z) :
  trim_to_loudest_segment input_samples desired_samples
  = trim_to_loudest_segment_indices input_samples desired_samples.
Proof.
  unfold trim_to_loudest_segment, trim_to_loudest_segment_indices.
  destruct (len input_samples <=? desired_samples); [reflexivity |].
  rewrite (for_each_ext (slide_step input_samples desired_samples)
             (slide_step_indices input_samples desired_samples)
             (slide_steps_agree input_samples desired_samples)).
  reflexivity.
Qed.

(** ** The window length computed by [trim_file] *)

(** Sanity checks of the division model against the binary64 values
    Python prints: [1/3 = 0x1.5555555555555p-2],
    [1/10 = 0x1.999999999999ap-4], [(2**53 + 1) / 1 = 2.0**53]. *)
Example long_true_divide_one_third :
  long_true_divide 1 3 = Ok (mkFloat64 6004799503160661 (-54)).
Proof. vm_compute. reflexivity. Qed.

Example long_true_divide_one_tenth :
  long_true_divide 1 10 = Ok (mkFloat64 7205759403792794 (-56)).
Proof. vm_compute. reflexivity. Qed.

Example long_true_divide_ties_to_even :
  long_true_divide (2 ^ 53 + 1) 1 = Ok (mkFloat64 (2 ^ 52) 1).
Proof. vm_compute. reflexivity. Qed.

Example long_true_divide_overflow :
  long_true_divide (2 ^ 2000) 1000 = Raise OverflowError.
Proof. vm_compute. reflexivity. Qed.

Lemma round_half_even_error (n d : Z) :
  0 < d → - d <= 2 * (round_half_even n d * d - n) <= d.
Proof.
  intros Hd. unfold round_half_even.
  pose proof (Z.div_mod n d ltac:(lia)) as Hdm.
  pose proof (Z.mod_pos_bound n d Hd) as Hr.
  destruct (Z.ltb_spec (2 * (n mod d)) d);
    [| destruct (Z.ltb_spec d (2 * (n mod d)));
       [| destruct (Z.even (n / d))]]; nia.
Qed.

Lemma ilog2_ratio_upper (n d k : Z) :
  0 < n → 0 < d → 0 <= k → n < d * 2 ^ (k + 1) → ilog2_ratio n d <= k.
Proof.
  intros Hn Hd Hk Hlt. unfold ilog2_ratio.
  set (e := Z.log2 n - Z.log2 d).
  destruct (Z_le_gt_dec e k) as [Hle | Hgt].
  - destruct (if 0 <=? e then _ else _); lia.
  - destruct (Z.leb_spec 0 e) as [_ | Hneg]; [| lia].
    assert (Hpow : 2 ^ (k + 1) <= 2 ^ e) by (apply Z.pow_le_mono_r; lia).
    destruct (Z.leb_spec (d * 2 ^ e) n) as [Hreach | _]; [nia |].
    destruct (Z.log2_spec n Hn) as [Hn1 _].
    destruct (Z.log2_spec d Hd) as [_ Hd2].
    assert (Hchain : 2 ^ Z.log2 n < 2 ^ (Z.log2 d + 1 + (k + 1))).
    { rewrite Z.pow_add_r by (pose proof (Z.log2_nonneg d); lia).
      pose proof (Z.pow_pos_nonneg 2 (k + 1) ltac:(lia) ltac:(lia)). nia. }
    apply Z.pow_lt_mono_r_iff in Hchain;
      [| lia | pose proof (Z.log2_nonneg d); lia].
    unfold e in *. lia.
Qed.

(** [ilog2_ratio n d] is the exponent of the leading bit of [n / d]:
    [2 ^ f <= n / d < 2 ^ (f + 1)], stated without fractions. *)
Lemma ilog2_ratio_spec (n d : Z) :
  0 < n → 0 < d →
  (0 <= ilog2_ratio n d →
     d * 2 ^ ilog2_ratio n d <= n < d * 2 ^ (ilog2_ratio n d + 1))
  ∧ (ilog2_ratio n d < 0 →
     d <= n * 2 ^ (- ilog2_ratio n d)
     ∧ n * 2 ^ (- ilog2_ratio n d - 1) < d).
Proof.
  intros Hn Hd. unfold ilog2_ratio.
  destruct (Z.log2_spec n Hn) as [Hn1 Hn2].
  destruct (Z.log2_spec d Hd) as [Hd1 Hd2].
  pose proof (Z.log2_nonneg n) as Hln. pose proof (Z.log2_nonneg d) as Hld.
  set (ln := Z.log2 n) in *. set (ld := Z.log2 d) in *.
  assert (Hpn : 0 < 2 ^ ln) by (apply Z.pow_pos_nonneg; lia).
  assert (Hpd : 0 < 2 ^ ld) by (apply Z.pow_pos_nonneg; lia).
  replace (Z.succ ln) with (ln + 1) in Hn2 by lia.
  replace (Z.succ ld) with (ld + 1) in Hd2 by lia.
  rewrite Z.pow_add_r in Hn2, Hd2 by lia. change (2 ^ 1) with 2 in *.
  destruct (Z.leb_spec 0 (ln - ld)) as [Hpos | Hneg].
  - assert (Hsplit : 2 ^ ln = 2 ^ ld * 2 ^ (ln - ld)).
    { rewrite <- Z.pow_add_r by lia. f_equal. lia. }
    assert (Hpe : 0 < 2 ^ (ln - ld)) by (apply Z.pow_pos_nonneg; lia).
    destruct (Z.leb_spec (d * 2 ^ (ln - ld)) n) as [Hreach | Hnot].
    + split; [| lia]. intros _.
      rewrite Z.pow_add_r by lia. change (2 ^ 1) with 2. nia.
    + replace (ln - ld - 1 + 1) with (ln - ld) by lia. split.
      * intros Hf. split; [| exact Hnot].
        assert (Hstep : 2 ^ (ln - ld) = 2 ^ (ln - ld - 1) * 2).
        { replace (2 ^ (ln - ld)) with (2 ^ (ln - ld - 1 + 1)) by (f_equal; lia).
          rewrite Z.pow_add_r by lia. reflexivity. }
        assert (0 < 2 ^ (ln - ld - 1)) by (apply Z.pow_pos_nonneg; lia).
        nia.
      * intros Hf. assert (Heq : ln - ld = 0) by lia.
        rewrite Heq in *. change (2 ^ 0) with 1 in *.
        replace (- (0 - 1)) with 1 by lia.
        replace (- (0 - 1) - 1) with 0 by lia.
        change (2 ^ 1) with 2. change (2 ^ 0) with 1. nia.
  - assert (Hsplit : 2 ^ ld = 2 ^ ln * 2 ^ (- (ln - ld))).
    { rewrite <- Z.pow_add_r by lia. f_equal. lia. }
    assert (Hpe : 0 < 2 ^ (- (ln - ld))) by (apply Z.pow_pos_nonneg; lia).
    assert (Hstep : 2 ^ (- (ln - ld)) = 2 ^ (- (ln - ld) - 1) * 2).
    { replace (2 ^ (- (ln - ld))) with (2 ^ (- (ln - ld) - 1 + 1))
        by (f_equal; lia).
      rewrite Z.pow_add_r by lia. reflexivity. }
    assert (0 < 2 ^ (- (ln - ld) - 1)) by (apply Z.pow_pos_nonneg; lia).
    destruct (Z.leb_spec d (n * 2 ^ (- (ln - ld)))) as [Hreach | Hnot].
    + split; [lia |]. intros _. split; [exact Hreach |]. nia.
    + split; [lia |]. intros _.
      replace (- (ln - ld - 1)) with (- (ln - ld) + 1) by lia.
      replace (- (ln - ld) + 1 - 1) with (- (ln - ld)) by lia.
      rewrite Z.pow_add_r by lia. change (2 ^ 1) with 2.
      split; [nia | exact Hnot].
Qed.

(** Below [1000 * 2^44] the rounding of [a / 1000] to binary64 stays
    strictly inside the unit interval of the exact quotient. *)
Lemma int_of_true_divide_1000 (a : Z) :
  0 <= a < 1000 * 2 ^ 44 →
  int_of_float <$> long_true_divide a 1000 = Ok (a / 1000).
Proof.
  intros [Ha Hbound]. unfold long_true_divide.
  change (1000 =? 0) with false. cbv iota.
  destruct (Z.eqb_spec a 0) as [-> | Hnz]; [reflexivity |].
  rewrite (Z.abs_eq a Ha). change (Z.abs 1000) with 1000.
  assert (Hf : ilog2_ratio a 1000 <= 43).
  { apply ilog2_ratio_upper; lia. }
  set (e := Z.max (ilog2_ratio a 1000 - 52) (-1074)).
  assert (He : e <= -9) by (unfold e; lia).
  destruct (Z.leb_spec 0 e) as [Hpos | _]; [lia |].
  cbn [andb fmap result_fmap].
  unfold int_of_float. cbn [exponent mantissa].
  destruct (Z.leb_spec 0 e) as [Hpos | _]; [lia |].
  f_equal.
  rewrite (Z.sgn_pos a) by lia. change (Z.sgn 1000) with 1.
  set (s := 2 ^ (- e)).
  assert (Hs : 512 <= s).
  { change 512 with (2 ^ 9). apply Z.pow_le_mono_r; lia. }
  pose proof (round_half_even_error (a * s) 1000 ltac:(lia)) as Herr.
  set (m := round_half_even (a * s) 1000) in *.
  replace (1 * 1 * m) with m by lia.
  pose proof (Z.div_mod a 1000 ltac:(lia)) as Hdm.
  pose proof (Z.mod_pos_bound a 1000 ltac:(lia)) as Hr.
  set (k := a / 1000) in *. set (r := a mod 1000) in *.
  assert (Hlow : k * s <= m) by nia.
  assert (Hhigh : m < (k + 1) * s) by nia.
  rewrite Z.quot_div_nonneg by nia.
  symmetry. apply (Z.div_unique m s k (m - k * s)); [left |]; lia.
Qed.

(** C8 (as amended): for nonnegative [desired_length_ms] and positive
    [sample_rate] with [desired_length_ms * sample_rate < 1000 * 2^44],
    the window length [int((desired_length_ms * sample_rate) / 1000)] is
    [floor (desired_length_ms * sample_rate / 1000)]. *)
Theorem desired_samples_is_floor (desired_length_ms sample_rate : Z) :
  0 <= desired_length_ms → 0 < sample_rate →
  desired_length_ms * sample_rate < 1000 * 2 ^ 44 →
  desired_samples_of desired_length_ms sample_rate
    = Ok (desired_length_ms * sample_rate / 1000).
Proof.
  intros Hms Hrate Hbound. unfold desired_samples_of.
  apply int_of_true_divide_1000. split; [nia | exact Hbound].
Qed.

Lemma desired_samples_is_floor_witness :
  0 <= 1000 ∧ 0 < 44100 ∧ 1000 * 44100 < 1000 * 2 ^ 44
  ∧ desired_samples_of 1000 44100 = Ok (1000 * 44100 / 1000).
Proof.
  split; [lia |]. split; [lia |]. split; [lia |].
  apply (desired_samples_is_floor 1000 44100); lia.
Defined.

(** C8 as first stated fails once the quotient needs rounding to the next
    integer: at 44100 Hz and [desired_length_ms = 25530610132489] the exact
    quotient is 1125899906842764.9, binary64 has spacing 1/4 there, and the
    division returns 1125899906842765.0. *)
Lemma desired_samples_not_floor :
  0 <= 25530610132489 ∧ 0 < 44100
  ∧ desired_samples_of 25530610132489 44100 = Ok 1125899906842765
  ∧ 25530610132489 * 44100 / 1000 = 1125899906842764
  ∧ desired_samples_of 25530610132489 44100
    ≠ Ok (25530610132489 * 44100 / 1000).
Proof.
  split; [lia |]. split; [lia |].
  split; [vm_compute; reflexivity |].
  split; [vm_compute; reflexivity |].
  vm_compute. intros H. discriminate H.
Qed.

(** ** The trimmer *)

Lemma py_range_elem (a b i : Z) : a <= i < b → i ∈ py_range a b.
Proof.
  intros Hi. unfold py_range.
  apply list_elem_of_In, in_map_iff. exists (Z.to_nat (i - a)).
  split; [lia |]. apply in_seq. lia.
Qed.

(** A loop raises when its body raises at one of the indices whatever the
    state is. *)
Lemma for_each_raises {S : Type} (body : S → Z → result S) (i : Z)
    (idxs : list Z) :
  i ∈ idxs → (∀ st, ∃ e, body st i = Raise e) →
  ∀ st, ∃ e, for_each body idxs st = Raise e.
Proof.
  intros Hin Hraise. induction idxs as [| h rest IH]; intros st.
  - inversion Hin.
  - simpl. destruct (body st h) as [st' | e] eqn:Hb.
    + simpl. apply elem_of_cons in Hin as [-> | Hin].
      * destruct (Hraise st) as (e & He). congruence.
      * apply IH. exact Hin.
    + exists e. reflexivity.
Qed.

(** With a negative [desired_samples] the loop runs past the end of the
    input and the locator raises. *)
Lemma locator_negative_raises (l : list Q) (d : Z) :
  d < 0 → ∃ e, trim_to_loudest_segment_indices l d = Raise e.
Proof.
  intros Hd. unfold trim_to_loudest_segment_indices.
  pose proof (len_nonneg l) as Hn.
  destruct (Z.leb_spec (len l) d) as [Hge | _]; [lia |].
  destruct (for_each_raises (slide_step_indices l d) (len l + 1)
              (py_range 1 (len l - d + 1))) with
    (st := mkLoopState (np_sum (np_square (py_slice l 0 d)))
                       (np_sum (np_square (py_slice l 0 d))) 0)
    as (e & He).
  - apply py_range_elem. lia.
  - intros st. exists IndexError. unfold slide_step_indices, py_index.
    replace (len l + 1 - 1) with (len l) by lia.
    destruct (Z.ltb_spec (len l) 0) as [Hneg | _]; [lia |].
    destruct (Z.ltb_spec (len l) 0) as [Hneg | _]; [lia |].
    destruct (Z.leb_spec (len l) (len l)) as [_ | Hlt]; [| lia].
    reflexivity.
  - exists e. rewrite He. reflexivity.
Qed.

(** Whenever the locator returns, it returns a range inside the input. *)
Lemma locator_range (l : list Q) (d start stop : Z) :
  trim_to_loudest_segment_indices l d = Ok (start, stop) →
  0 <= start <= stop ∧ stop <= len l.
Proof.
  intros Hret. pose proof (len_nonneg l) as Hn.
  destruct (Z_lt_le_dec d 0) as [Hneg | Hd].
  - destruct (locator_negative_raises l d Hneg) as (e & He). congruence.
  - destruct (Z_lt_le_dec d (len l)) as [Hlt | Hge].
    + destruct (locator_spec l d (conj Hd Hlt)) as (s & Hs & Hb & _).
      rewrite Hs in Hret. injection Hret as <- <-. lia.
    + unfold trim_to_loudest_segment_indices in Hret.
      destruct (Z.leb_spec (len l) d) as [_ | Hlt]; [| lia].
      injection Hret as <- <-. lia.
Qed.

Lemma len_mean_axis1 (a : list (list Q)) : len (mean_axis1 a) = len a.
Proof. unfold len, mean_axis1. rewrite length_map. reflexivity. Qed.

Lemma len_py_slice {A : Type} (l : list A) (a b : Z) :
  0 <= a → a <= b → b <= len l → len (py_slice l a b) = b - a.
Proof.
  intros Ha Hab Hb. rewrite py_slice_in_range by lia.
  unfold len in *. rewrite length_take, length_drop. lia.
Qed.

(** Reading frame [f - a] of the slice [l[a:b]] reads frame [f] of [l]. *)
Lemma py_index_slice {A : Type} (l : list A) (a b f : Z) :
  0 <= a → b <= len l → a <= f < b →
  ∃ x, py_index (py_slice l a b) (f - a) = Ok x ∧ py_index l f = Ok x.
Proof.
  intros Ha Hb Hf.
  destruct (py_index_in_range l f) as (x & Hx & Hpx); [lia |].
  destruct (py_index_in_range (py_slice l a b) (f - a)) as (y & Hy & Hpy).
  { rewrite len_py_slice by lia. lia. }
  exists x. split; [| exact Hpx]. rewrite Hpy. f_equal.
  rewrite py_slice_in_range in Hy by lia.
  rewrite lookup_take_lt in Hy by lia.
  rewrite lookup_drop in Hy.
  replace (Z.to_nat a + Z.to_nat (f - a))%nat with (Z.to_nat f) in Hy by lia.
  congruence.
Qed.

(** ** The command line *)

(** C9: with fewer than two command-line arguments [main] prints the usage
    message and returns -1, but the script calls [main()] and drops the
    value, so the process still exits with status 0 and not with a nonzero
    status. *)
Theorem usage_error_exits_with_status_zero
    (glob_glob : World → string → list string)
    (os_path_split : string → string * string)
    (os_path_join : string → string → string)
    (os_path_dirname : string → string)
    (os_makedirs : World → string → result World)
    (w : World) (argv : list string) :
  len argv < 3 →
  main glob_glob os_path_split os_path_join os_path_dirname os_makedirs w argv
    = (print w MsgUsage, Ok (-1))
  ∧ run_script glob_glob os_path_split os_path_join os_path_dirname
      os_makedirs w argv
    = (print w MsgUsage, 0).
Proof.
  intros Hlen. unfold run_script, main.
  destruct (Z.ltb_spec (len argv) 3) as [_ | Hge]; [| lia].
  split; reflexivity.
Qed.

Lemma usage_error_exits_with_status_zero_witness :
  len ["extract_loudest_section_python.py"%string] < 3
  ∧ main (fun _ _ => []) (fun p => (""%string, p)) String.append (fun p => p)
      (fun w _ => Ok w) quiet_world ["extract_loudest_section_python.py"%string]
    = (print quiet_world MsgUsage, Ok (-1))
  ∧ run_script (fun _ _ => []) (fun p => (""%string, p)) String.append
      (fun p => p) (fun w _ => Ok w) quiet_world
      ["extract_loudest_section_python.py"%string]
    = (print quiet_world MsgUsage, 0).
Proof.
  split; [unfold len; simpl; lia |].
  apply (usage_error_exits_with_status_zero (fun _ _ => [])
           (fun p => (""%string, p)) String.append (fun p => p)
           (fun w _ => Ok w) quiet_world
           ["extract_loudest_section_python.py"%string]).
  unfold len; simpl; lia.
Defined.

(** * Further properties of the locator *)

Lemma py_index_exn {A : Type} (l : list A) (i : Z) (e : Exn) :
  py_index l i = Raise e → e = IndexError.
Proof.
  unfold py_index.
  destruct ((_ <? 0) || (len l <=? _)); [congruence |].
  destruct (l !! _); congruence.
Qed.

Lemma slide_step_indices_exn (l : list Q) (d : Z) (st : LoopState) (i : Z)
    (e : Exn) :
  slide_step_indices l d st i = Raise e → e = IndexError.
Proof.
  unfold slide_step_indices.
  destruct (py_index l (i - 1)) as [t | e1] eqn:H1; simpl.
  - destruct (py_index l (i + d - 1)) as [x | e2] eqn:H2; simpl.
    + destruct (Qgtb _ _); discriminate.
    + intros [= <-]. exact (py_index_exn _ _ _ H2).
  - intros [= <-]. exact (py_index_exn _ _ _ H1).
Qed.

(** A loop raises only what its body raises. *)
Lemma for_each_exn {S : Type} (body : S → Z → result S) (ex : Exn) :
  (∀ st i e, body st i = Raise e → e = ex) →
  ∀ idxs st e, for_each body idxs st = Raise e → e = ex.
Proof.
  intros Hbody idxs. induction idxs as [| i rest IH]; intros st e; simpl.
  - discriminate.
  - destruct (body st i) as [st' | e1] eqn:Hb; simpl.
    + apply IH.
    + intros [= <-]. exact (Hbody _ _ _ Hb).
Qed.

Lemma locator_exn (l : list Q) (d : Z) (e : Exn) :
  trim_to_loudest_segment_indices l d = Raise e → e = IndexError.
Proof.
  unfold trim_to_loudest_segment_indices.
  destruct (len l <=? d); [discriminate |].
  destruct (for_each _ _ _) as [st | e1] eqn:Hrun; simpl; [discriminate |].
  intros [= <-].
  exact (for_each_exn _ IndexError (slide_step_indices_exn l d) _ _ _ Hrun).
Qed.

(** The first copy of the locator, rewritten into the second. *)
Lemma first_copy_is_second (l : list Q) (d : Z) :
  trim_to_loudest_segment l d = trim_to_loudest_segment_indices l d.
Proof.
  unfold trim_to_loudest_segment, trim_to_loudest_segment_indices.
  destruct (len l <=? d); [reflexivity |].
  rewrite (for_each_ext _ _ (slide_steps_agree l d)). reflexivity.
Qed.

(** X1: for [desired_samples >= 0] both locators return a range of exactly
    [min desired_samples (len input_samples)] samples. *)
Theorem returned_window_length (input_samples : list Q) (desired_samples : Z) :
  0 <= desired_samples →
  ∃ start stop,
    trim_to_loudest_segment input_samples desired_samples = Ok (start, stop)
    ∧ trim_to_loudest_segment_indices input_samples desired_samples
      = Ok (start, stop)
    ∧ stop - start = Z.min desired_samples (len input_samples).
Proof.
  intros Hd. rewrite first_copy_is_second.
  destruct (Z_lt_le_dec desired_samples (len input_samples)) as [Hlt | Hge].
  - destruct (locator_spec input_samples desired_samples (conj Hd Hlt))
      as (s & Hret & _).
    exists s, (s + desired_samples). rewrite Hret. repeat split. lia.
  - exists 0, (len input_samples).
    unfold trim_to_loudest_segment_indices.
    destruct (Z.leb_spec (len input_samples) desired_samples); [| lia].
    repeat split. lia.
Qed.

Lemma returned_window_length_witness :
  0 <= 3
  ∧ ∃ start stop,
      trim_to_loudest_segment [1; -4; 2; 0; 3]%Q 3 = Ok (start, stop)
      ∧ trim_to_loudest_segment_indices [1; -4; 2; 0; 3]%Q 3 = Ok (start, stop)
      ∧ stop - start = Z.min 3 (len [1; -4; 2; 0; 3]%Q).
Proof.
  split; [lia |]. apply (returned_window_length [1; -4; 2; 0; 3]%Q 3). lia.
Defined.

(** X2: with a negative [desired_samples] both locators raise [IndexError]
    on every input: the loop runs to the index [len input_samples], one
    past the end. *)
Theorem negative_window_raises_index_error (input_samples : list Q)
    (desired_samples : Z) :
  desired_samples < 0 →
  trim_to_loudest_segment input_samples desired_samples = Raise IndexError
  ∧ trim_to_loudest_segment_indices input_samples desired_samples
    = Raise IndexError.
Proof.
  intros Hd. rewrite first_copy_is_second.
  destruct (locator_negative_raises input_samples desired_samples Hd)
    as (e & He).
  rewrite He, (locator_exn _ _ _ He). split; reflexivity.
Qed.

Lemma negative_window_raises_index_error_witness :
  -1 < 0
  ∧ trim_to_loudest_segment [1; 2; 3]%Q (-1) = Raise IndexError
  ∧ trim_to_loudest_segment_indices [1; 2; 3]%Q (-1) = Raise IndexError.
Proof.
  split; [lia |].
  apply (negative_window_raises_index_error [1; 2; 3]%Q (-1)). lia.
Defined.

Lemma window_energy_zero_length (l : list Q) (j : Z) :
  window_energy l 0 j = 0%Q.
Proof.
  unfold window_energy, py_slice. rewrite Z.add_0_r, Z.sub_diag.
  reflexivity.
Qed.

Lemma locator_zero_window (l : list Q) :
  trim_to_loudest_segment_indices l 0 = Ok (0, 0).
Proof.
  pose proof (len_nonneg l) as Hn.
  destruct (Z_lt_le_dec 0 (len l)) as [Hlt | Hge].
  - destruct (locator_spec l 0 (conj (Z.le_refl 0) Hlt))
      as (s & Hret & Hs & _ & Hleft).
    destruct (Z.eq_dec s 0) as [-> | Hne]; [exact Hret |].
    specialize (Hleft 0 ltac:(lia)).
    rewrite !window_energy_zero_length in Hleft.
    exfalso. exact (Qlt_irrefl _ Hleft).
  - unfold trim_to_loudest_segment_indices.
    destruct (Z.leb_spec (len l) 0); [| lia].
    f_equal. f_equal. lia.
Qed.

(** X3: a window of zero samples is located at the very start: for
    [desired_samples = 0] both locators return [(0, 0)] whatever the input
    is, since no later window is strictly louder than the first. *)
Theorem zero_length_window_at_start (input_samples : list Q) :
  trim_to_loudest_segment input_samples 0 = Ok (0, 0)
  ∧ trim_to_loudest_segment_indices input_samples 0 = Ok (0, 0).
Proof.
  rewrite first_copy_is_second.
  split; apply locator_zero_window.
Qed.

Lemma len_map {A B : Type} (f : A → B) (l : list A) : len (map f l) = len l.
Proof. unfold len. rewrite length_map. reflexivity. Qed.

Lemma py_slice_map {A B : Type} (f : A → B) (l : list A) (a b : Z) :
  py_slice (map f l) a b = map f (py_slice l a b).
Proof.
  unfold py_slice. rewrite len_map, skipn_map, firstn_map. reflexivity.
Qed.

Lemma energy_scale (c : Q) (xs : list Q) :
  (energy (map (Qmult c) xs) == c * c * energy xs)%Q.
Proof.
  induction xs as [| x xs IH].
  - unfold energy. simpl. ring.
  - simpl map. rewrite !energy_cons, IH. ring.
Qed.

Lemma window_energy_scale (c : Q) (l : list Q) (d j : Z) :
  (window_energy (map (Qmult c) l) d j == c * c * window_energy l d j)%Q.
Proof.
  unfold window_energy. rewrite py_slice_map. apply energy_scale.
Qed.

Lemma Qsquare_pos (c : Q) : ¬ (c == 0)%Q → (0 < c * c)%Q.
Proof.
  unfold Qeq, Qlt. destruct c as [n p]. simpl. nia.
Qed.

(** X4: the located window does not depend on gain or polarity: scaling
    every sample by the same nonzero factor [c] (for instance [-1]) leaves
    the result of the locator unchanged, for every [desired_samples]. *)
Theorem locator_gain_invariant (c : Q) (input_samples : list Q)
    (desired_samples : Z) :
  ¬ (c == 0)%Q →
  trim_to_loudest_segment_indices (map (Qmult c) input_samples) desired_samples
  = trim_to_loudest_segment_indices input_samples desired_samples.
Proof.
  intros Hc. pose proof (Qsquare_pos c Hc) as Hcc.
  set (l' := map (Qmult c) input_samples).
  assert (Hlen : len l' = len input_samples) by apply len_map.
  destruct (Z_lt_le_dec desired_samples 0) as [Hneg | Hd].
  - destruct (locator_negative_raises l' _ Hneg) as (e1 & H1).
    destruct (locator_negative_raises input_samples _ Hneg) as (e2 & H2).
    rewrite H1, H2, (locator_exn _ _ _ H1), (locator_exn _ _ _ H2).
    reflexivity.
  - destruct (Z_lt_le_dec desired_samples (len input_samples)) as [Hlt | Hge].
    + destruct (locator_spec l' desired_samples) as (s' & H1 & Hs' & Hmax' & Hleft');
        [lia |].
      destruct (locator_spec input_samples desired_samples (conj Hd Hlt))
        as (s & H2 & Hs & Hmax & Hleft).
      rewrite H1, H2. rewrite Hlen in Hs', Hmax'.
      assert (Hscale : ∀ j k,
                 (window_energy l' desired_samples j
                  < window_energy l' desired_samples k)%Q →
                 (window_energy input_samples desired_samples j
                  < window_energy input_samples desired_samples k)%Q).
      { intros j k Hjk. unfold l' in Hjk.
        rewrite !window_energy_scale in Hjk.
        apply (Qmult_lt_l _ _ (c * c)%Q Hcc). exact Hjk. }
      assert (Hscale' : ∀ j k,
                 (window_energy input_samples desired_samples j
                  < window_energy input_samples desired_samples k)%Q →
                 (window_energy l' desired_samples j
                  < window_energy l' desired_samples k)%Q).
      { intros j k Hjk. unfold l'. rewrite !window_energy_scale.
        apply (Qmult_lt_l _ _ (c * c)%Q Hcc). exact Hjk. }
      destruct (Z.lt_trichotomy s s') as [Hss | [-> | Hss]].
      * exfalso. apply (Qlt_not_le _ _ (Hscale _ _ (Hleft' s ltac:(lia)))).
        apply Hmax. lia.
      * reflexivity.
      * exfalso. apply (Qlt_not_le _ _ (Hscale' _ _ (Hleft s' ltac:(lia)))).
        apply Hmax'. lia.
    + unfold trim_to_loudest_segment_indices. rewrite Hlen.
      destruct (Z.leb_spec (len input_samples) desired_samples); [| lia].
      reflexivity.
Qed.

Lemma locator_gain_invariant_witness :
  ¬ (-1 # 2 == 0)%Q
  ∧ trim_to_loudest_segment_indices (map (Qmult (-1 # 2)) [1; 3; -2; 4; 0]%Q) 2
    = trim_to_loudest_segment_indices [1; 3; -2; 4; 0]%Q 2.
Proof.
  assert (H : ¬ (-1 # 2 == 0)%Q) by (intros H; discriminate H).
  split; [exact H |].
  exact (locator_gain_invariant (-1 # 2) [1; 3; -2; 4; 0]%Q 2 H).
Defined.

(** * Further properties of the trimmer *)

(** Division is odd in the dividend: the quotient of [- a] is the
    quotient of [a] with the sign flipped. *)
Lemma long_true_divide_opp (a b : Z) :
  long_true_divide (- a) b = float64_opp <$> long_true_divide a b.
Proof.
  unfold long_true_divide.
  destruct (b =? 0); [reflexivity |].
  destruct (Z.eqb_spec a 0) as [-> | Hnz]; [reflexivity |].
  destruct (Z.eqb_spec (- a) 0) as [Hz | _]; [lia |].
  rewrite Z.abs_opp, Z.sgn_opp.
  destruct ((0 <=? _) && _); [reflexivity |].
  simpl. unfold float64_opp. simpl. do 2 f_equal. lia.
Qed.

Lemma int_of_float_opp (x : float64) :
  int_of_float (float64_opp x) = - int_of_float x.
Proof.
  unfold int_of_float, float64_opp. simpl.
  destruct (Z.leb_spec 0 (exponent x)) as [Hpos | Hneg].
  - lia.
  - apply Z.quot_opp_l. apply Z.pow_nonzero; lia.
Qed.

(** Within [1000 * 2^44] of zero, [int(a / 1000)] is the quotient
    truncated toward zero. *)
Lemma int_of_true_divide_1000_quot (a : Z) :
  - (1000 * 2 ^ 44) < a < 1000 * 2 ^ 44 →
  int_of_float <$> long_true_divide a 1000 = Ok (Z.quot a 1000).
Proof.
  intros Ha. destruct (Z_lt_le_dec a 0) as [Hneg | Hpos].
  - replace a with (- (- a)) at 1 by lia.
    rewrite long_true_divide_opp.
    pose proof (int_of_true_divide_1000 (- a) ltac:(lia)) as Hq.
    destruct (long_true_divide (- a) 1000) as [x | e]; [| discriminate Hq].
    simpl in *. injection Hq as Hq. rewrite int_of_float_opp, Hq.
    f_equal. rewrite <- Z.quot_div_nonneg by lia.
    rewrite Z.quot_opp_l by lia. lia.
  - rewrite int_of_true_divide_1000 by lia.
    f_equal. symmetry. apply Z.quot_div_nonneg; lia.
Qed.

(** X5: for any integers with [|desired_length_ms * sample_rate|] below
    [1000 * 2^44] the window length computed by [trim_file] is the exact
    quotient by 1000 truncated toward zero (not floored): a product
    between -999 and -1 gives 0, not -1. *)
Theorem desired_samples_truncates (desired_length_ms sample_rate : Z) :
  - (1000 * 2 ^ 44) < desired_length_ms * sample_rate < 1000 * 2 ^ 44 →
  desired_samples_of desired_length_ms sample_rate
    = Ok (Z.quot (desired_length_ms * sample_rate) 1000)
  ∧ (- 1000 < desired_length_ms * sample_rate < 0 →
     desired_samples_of desired_length_ms sample_rate = Ok 0
     ∧ desired_length_ms * sample_rate / 1000 = -1).
Proof.
  intros Hb. unfold desired_samples_of.
  rewrite (int_of_true_divide_1000_quot _ Hb). split; [reflexivity |].
  intros Hsmall. split.
  - f_equal. apply Z.quot_small_iff; lia.
  - symmetry. apply (Z.div_unique _ 1000 (-1) (desired_length_ms * sample_rate + 1000));
      [left |]; lia.
Qed.

Lemma desired_samples_truncates_witness :
  - (1000 * 2 ^ 44) < (-1) * 500 < 1000 * 2 ^ 44
  ∧ desired_samples_of (-1) 500 = Ok (Z.quot ((-1) * 500) 1000)
  ∧ (- 1000 < (-1) * 500 < 0 →
     desired_samples_of (-1) 500 = Ok 0 ∧ (-1) * 500 / 1000 = -1).
Proof.
  split; [lia |]. apply (desired_samples_truncates (-1) 500). lia.
Defined.

(** Every normal return of [trim_file] is one of two: a message only, or
    a window of the decoded input stored at [output_filename] followed by
    the "saved" message. *)
Lemma trim_file_cases (w w' : World) (input_filename output_filename : string)
    (desired_length_ms : Z) (min_volume : Q) :
  trim_file w input_filename output_filename desired_length_ms min_volume
    = Ok w' →
  (∃ m, w' = print w m ∧ m ≠ MsgSaved output_filename)
  ∨ (∃ wav start_idx end_idx,
       sf_read w input_filename = Some wav
       ∧ w' = print (mkWorld (<[output_filename :=
                                 mkWav (map (map (requantise w output_filename))
                                            (py_slice (wav_samples wav)
                                                      start_idx end_idx))
                                       (sample_rate wav)]> (files w))
                             (writable w) (requantise w) (stdout w))
                    (MsgSaved output_filename)).
Proof.
  unfold trim_file.
  destruct (sf_read w input_filename) as [wav |] eqn:Hread.
  2:{ intros [= <-]. left. eexists. split; [reflexivity | discriminate]. }
  destruct (desired_samples_of _ _) as [d | ex]; [| discriminate]. simpl.
  destruct (trim_to_loudest_segment_indices _ d) as [[s e] | ex];
    [| discriminate]. simpl.
  destruct (npfloat_ltb _ _).
  { intros [= <-]. left. eexists. split; [reflexivity | discriminate]. }
  unfold sf_write. destruct (writable w output_filename _ _).
  - intros [= <-]. right. exists wav, s, e. split; reflexivity.
  - intros [= <-]. left. eexists. split; [reflexivity | discriminate].
Qed.

(** X6: whenever [trim_file] returns, it has printed exactly one message
    and has touched no file other than [output_filename]. *)
Theorem trim_file_touches_only_output (w w' : World)
    (input_filename output_filename : string) (desired_length_ms : Z)
    (min_volume : Q) :
  trim_file w input_filename output_filename desired_length_ms min_volume
    = Ok w' →
  (∃ m, stdout w' = stdout w ++ [m])
  ∧ ∀ other, other ≠ output_filename → files w' !! other = files w !! other.
Proof.
  intros Hrun.
  destruct (trim_file_cases _ _ _ _ _ _ Hrun)
    as [(m & -> & _) | (wav & s & e & _ & ->)].
  - split; [exists m; reflexivity |]. intros other _. reflexivity.
  - split; [eexists; reflexivity |]. intros other Hne. simpl.
    apply lookup_insert_ne. congruence.
Qed.

Lemma trim_file_touches_only_output_witness :
  trim_file stereo_world "stereo.wav" "out/stereo.wav" 1 min_volume_default
  = Ok stereo_saved_world
  ∧ (∃ m, stdout stereo_saved_world
          = stdout stereo_world ++ [m])
  ∧ ∀ other, other ≠ "out/stereo.wav"%string →
      files stereo_saved_world !! other
      = files stereo_world !! other.
Proof.
  assert (H : trim_file stereo_world "stereo.wav" "out/stereo.wav" 1
                min_volume_default
              = Ok stereo_saved_world)
    by (vm_compute; reflexivity).
  split; [exact H |].
  exact (trim_file_touches_only_output stereo_world _ "stereo.wav"%string
           "out/stereo.wav"%string 1 min_volume_default H).
Defined.

(** X7: [trim_file] returns normally, whether the input decodes or not,
    when the product [desired_length_ms * sample_rate] of a decodable input
    is nonnegative and below [1000 * 2^44]: no exception leaves it. *)
Theorem trim_file_returns (w : World) (input_filename output_filename : string)
    (desired_length_ms : Z) (min_volume : Q) :
  (∀ wav, sf_read w input_filename = Some wav →
     0 <= desired_length_ms * sample_rate wav < 1000 * 2 ^ 44) →
  ∃ w', trim_file w input_filename output_filename desired_length_ms
                  min_volume = Ok w'.
Proof.
  intros Hrate. unfold trim_file.
  destruct (sf_read w input_filename) as [wav |]; [| eexists; reflexivity].
  specialize (Hrate wav eq_refl). unfold desired_samples_of.
  rewrite (int_of_true_divide_1000 _ Hrate). simpl.
  set (d := desired_length_ms * sample_rate wav / 1000).
  assert (Hd : 0 <= d) by (apply Z.div_pos; lia).
  destruct (Z_lt_le_dec d (len (mean_axis1 (wav_samples wav)))) as [Hlt | Hge].
  - destruct (locator_spec _ d (conj Hd Hlt)) as (s & -> & _). simpl.
    destruct (npfloat_ltb _ _); [eexists; reflexivity |].
    destruct (sf_write _ _ _ _); eexists; reflexivity.
  - unfold trim_to_loudest_segment_indices.
    destruct (Z.leb_spec (len (mean_axis1 (wav_samples wav))) d); [| lia].
    simpl.
    destruct (npfloat_ltb _ _); [eexists; reflexivity |].
    destruct (sf_write _ _ _ _); eexists; reflexivity.
Qed.

Lemma trim_file_returns_witness :
  (∀ wav, sf_read stereo_world "stereo.wav" = Some wav →
     0 <= 1000 * sample_rate wav < 1000 * 2 ^ 44)
  ∧ ∃ w', trim_file stereo_world "stereo.wav" "out/stereo.wav" 1000
                    min_volume_default = Ok w'.
Proof.
  assert (H : ∀ wav, sf_read stereo_world "stereo.wav" = Some wav →
                0 <= 1000 * sample_rate wav < 1000 * 2 ^ 44).
  { intros wav Hw. vm_compute in Hw. injection Hw as <-. simpl. lia. }
  split; [exact H |].
  exact (trim_file_returns stereo_world "stereo.wav"%string
           "out/stereo.wav"%string 1000 min_volume_default H).
Defined.

(** X8: a negative window length is not caught: when the input decodes
    and [desired_length_ms * sample_rate <= -1000] (above [-1000 * 2^44]),
    [trim_file] raises [IndexError] instead of returning. *)
Theorem trim_file_negative_length_raises (w : World)
    (input_filename output_filename : string) (desired_length_ms : Z)
    (min_volume : Q) (wav : Wav) :
  sf_read w input_filename = Some wav →
  - (1000 * 2 ^ 44) < desired_length_ms * sample_rate wav <= - 1000 →
  trim_file w input_filename output_filename desired_length_ms min_volume
    = Raise IndexError.
Proof.
  intros Hread Hneg. unfold trim_file, desired_samples_of. rewrite Hread.
  rewrite int_of_true_divide_1000_quot by lia. simpl.
  set (d := Z.quot (desired_length_ms * sample_rate wav) 1000).
  assert (Hd : d < 0).
  { unfold d. pose proof (Z.quot_opp_l (- (desired_length_ms * sample_rate wav))
                            1000 ltac:(lia)) as Hq.
    rewrite Z.opp_involutive in Hq. rewrite Hq.
    rewrite Z.quot_div_nonneg by lia.
    assert (1 <= - (desired_length_ms * sample_rate wav) / 1000)
      by (apply Z.div_le_lower_bound; lia).
    lia. }
  destruct (locator_negative_raises (mean_axis1 (wav_samples wav)) d Hd)
    as (e & He).
  rewrite He, (locator_exn _ _ _ He). reflexivity.
Qed.

Lemma trim_file_negative_length_raises_witness :
  sf_read stereo_world "stereo.wav" = Some stereo_wav
  ∧ - (1000 * 2 ^ 44) < (-1) * sample_rate stereo_wav <= - 1000
  ∧ trim_file stereo_world "stereo.wav" "out/stereo.wav" (-1)
              min_volume_default
    = Raise IndexError.
Proof.
  assert (H1 : sf_read stereo_world "stereo.wav" = Some stereo_wav)
    by (vm_compute; reflexivity).
  assert (H2 : - (1000 * 2 ^ 44) < (-1) * sample_rate stereo_wav <= - 1000)
    by (simpl; lia).
  split; [exact H1 |]. split; [exact H2 |].
  exact (trim_file_negative_length_raises stereo_world "stereo.wav"%string
           "out/stereo.wav"%string (-1) min_volume_default stereo_wav H1 H2).
Defined.

Lemma py_slice_empty {A : Type} (l : list A) (a : Z) : py_slice l a a = [].
Proof. unfold py_slice. rewrite Z.sub_diag. reflexivity. Qed.

Lemma py_slice_all {A : Type} (l : list A) : py_slice l 0 (len l) = l.
Proof.
  pose proof (len_nonneg l) as Hn.
  rewrite py_slice_in_range by lia.
  rewrite Z.sub_0_r. simpl. unfold len. rewrite Nat2Z.id.
  apply firstn_all.
Qed.

(** X9: an empty window is never "too quiet": when the decoded input has
    no frames, or the window length is 0, the mean is [nan], the comparison
    with [min_volume] is false for every [min_volume], and [trim_file] goes
    on to write a file of zero frames. *)
Theorem empty_window_is_written (w : World)
    (input_filename output_filename : string) (desired_length_ms : Z)
    (min_volume : Q) (wav : Wav) (desired_samples : Z) :
  sf_read w input_filename = Some wav →
  desired_samples_of desired_length_ms (sample_rate wav) = Ok desired_samples →
  desired_samples = 0 ∨ (0 <= desired_samples ∧ wav_samples wav = []) →
  trim_file w input_filename output_filename desired_length_ms min_volume
  = match sf_write w output_filename [] (sample_rate wav) with
    | Some w' => Ok (print w' (MsgSaved output_filename))
    | None => Ok (print w (MsgWriteFailed output_filename))
    end.
Proof.
  intros Hread Hd Hempty. unfold trim_file. rewrite Hread, Hd. simpl.
  assert (Hloc : trim_to_loudest_segment_indices
                   (mean_axis1 (wav_samples wav)) desired_samples = Ok (0, 0)).
  { destruct Hempty as [-> | [Hpos Hnil]]; [apply locator_zero_window |].
    rewrite Hnil. unfold trim_to_loudest_segment_indices. simpl.
    destruct (Z.leb_spec (len ([] : list Q)) desired_samples) as [_ | Hlt];
      [reflexivity |].
    unfold len in Hlt. simpl in Hlt. lia. }
  rewrite Hloc. simpl. rewrite !py_slice_empty. reflexivity.
Qed.

Lemma empty_window_is_written_witness :
  sf_read stereo_world "stereo.wav" = Some stereo_wav
  ∧ desired_samples_of 0 (sample_rate stereo_wav) = Ok 0
  ∧ (0 = 0 ∨ (0 <= 0 ∧ wav_samples stereo_wav = []))
  ∧ trim_file stereo_world "stereo.wav" "out/stereo.wav" 0 1000
    = match sf_write stereo_world "out/stereo.wav" []
              (sample_rate stereo_wav) with
      | Some w' => Ok (print w' (MsgSaved "out/stereo.wav"))
      | None => Ok (print stereo_world (MsgWriteFailed "out/stereo.wav"))
      end.
Proof.
  assert (H1 : sf_read stereo_world "stereo.wav" = Some stereo_wav)
    by (vm_compute; reflexivity).
  assert (H2 : desired_samples_of 0 (sample_rate stereo_wav) = Ok 0)
    by (vm_compute; reflexivity).
  assert (H3 : 0 = 0 ∨ (0 <= 0 ∧ wav_samples stereo_wav = []))
    by (left; reflexivity).
  repeat (split; [assumption |]).
  exact (empty_window_is_written stereo_world "stereo.wav"%string
           "out/stereo.wav"%string 0 1000 stereo_wav 0 H1 H2 H3).
Defined.

(** Whenever the locator returns, [desired_samples] was not negative and
    the range has [min desired_samples (len l)] samples. *)
Lemma locator_ok_length (l : list Q) (d start stop : Z) :
  trim_to_loudest_segment_indices l d = Ok (start, stop) →
  0 <= d ∧ stop - start = Z.min d (len l).
Proof.
  intros Hret. pose proof (len_nonneg l) as Hn.
  destruct (Z_lt_le_dec d 0) as [Hneg | Hd].
  - destruct (locator_negative_raises l d Hneg) as (e & He). congruence.
  - split; [exact Hd |].
    destruct (Z_lt_le_dec d (len l)) as [Hlt | Hge].
    + destruct (locator_spec l d (conj Hd Hlt)) as (s & Hs & _).
      rewrite Hs in Hret. injection Hret as <- <-. lia.
    + unfold trim_to_loudest_segment_indices in Hret.
      destruct (Z.leb_spec (len l) d) as [_ | Hlt]; [| lia].
      injection Hret as <- <-. lia.
Qed.

(** * Further properties of the driver *)

Lemma trim_file_batch_step (w : World) (input_filename output_filename : string)
    (min_volume : Q) :
  rates_ok w →
  ∃ w', trim_file w input_filename output_filename 1000 min_volume = Ok w'
        ∧ rates_ok w'
        ∧ length (stdout w') = S (length (stdout w)).
Proof.
  intros Hok.
  assert (Hret : ∃ w', trim_file w input_filename output_filename 1000
                                 min_volume = Ok w').
  { unfold trim_file.
    destruct (sf_read w input_filename) as [wav |] eqn:Hread;
      [| eexists; reflexivity].
    pose proof (Hok _ _ Hread) as Hrate. simpl in Hrate.
    unfold desired_samples_of.
    rewrite (int_of_true_divide_1000 (1000 * sample_rate wav)) by lia. simpl.
    set (d := 1000 * sample_rate wav / 1000).
    assert (Hd : 0 <= d) by (apply Z.div_pos; lia).
    destruct (Z_lt_le_dec d (len (mean_axis1 (wav_samples wav)))) as [Hlt | Hge].
    - destruct (locator_spec _ d (conj Hd Hlt)) as (s & -> & _). simpl.
      destruct (npfloat_ltb _ _); [eexists; reflexivity |].
      destruct (sf_write _ _ _ _); eexists; reflexivity.
    - unfold trim_to_loudest_segment_indices.
      destruct (Z.leb_spec (len (mean_axis1 (wav_samples wav))) d); [| lia].
      simpl.
      destruct (npfloat_ltb _ _); [eexists; reflexivity |].
      destruct (sf_write _ _ _ _); eexists; reflexivity. }
  destruct Hret as (w' & Hrun). exists w'. split; [exact Hrun |].
  destruct (trim_file_cases _ _ _ _ _ _ Hrun)
    as [(m & -> & _) | (wav & s & e & Hread & ->)].
  - split; [exact Hok |]. simpl. rewrite length_app. simpl. lia.
  - split.
    + unfold rates_ok. simpl. apply map_Forall_insert_2; [| exact Hok].
      simpl. exact (Hok _ _ Hread).
    + simpl. rewrite length_app. simpl. lia.
Qed.

(** The loop over the file pairs runs to its end when the sample rates
    are valid. *)
Lemma trim_files_total (pairs : list (string * string)) :
  ∀ w, rates_ok w →
  ∃ w', trim_files w pairs = (w', Ok tt)
        ∧ length (stdout w') = (length (stdout w) + length pairs)%nat.
Proof.
  induction pairs as [| [i o] rest IH]; intros w Hok; simpl.
  - exists w. split; [reflexivity | lia].
  - destruct (trim_file_batch_step w i o min_volume_default Hok)
      as (w1 & -> & Hok1 & Hlen1).
    destruct (IH w1 Hok1) as (w2 & Hrun & Hlen2).
    exists w2. split; [exact Hrun | lia].
Qed.

(** X11: the batch loop of [main] isolates files: when every decodable
    file has a sample rate in [0, 2^44), the loop over the file pairs never
    raises, whatever fails to decode, is too quiet or cannot be written;
    it prints exactly one message per pair and keeps the sample rates
    valid. *)
Theorem batch_loop_never_raises (w : World) (pairs : list (string * string)) :
  rates_ok w →
  ∃ w', trim_files w pairs = (w', Ok tt)
        ∧ rates_ok w'
        ∧ length (stdout w') = (length (stdout w) + length pairs)%nat.
Proof.
  revert w. induction pairs as [| [i o] rest IH]; intros w Hok.
  - exists w. split; [reflexivity |]. split; [exact Hok |]. simpl. lia.
  - simpl.
    destruct (trim_file_batch_step w i o min_volume_default Hok)
      as (w1 & -> & Hok1 & Hlen1).
    destruct (IH w1 Hok1) as (w2 & Hrun & Hok2 & Hlen2).
    exists w2. split; [exact Hrun |]. split; [exact Hok2 |]. lia.
Qed.

Lemma batch_world_rates_ok : rates_ok batch_world.
Proof.
  unfold rates_ok, batch_world. simpl.
  apply map_Forall_insert_2; [simpl; lia |].
  apply map_Forall_singleton. simpl. lia.
Qed.

Lemma batch_loop_never_raises_witness :
  rates_ok batch_world
  ∧ ∃ w', trim_files batch_world
            [("in/stereo.wav", "out/stereo.wav");
             ("in/missing.wav", "out/missing.wav")]%string = (w', Ok tt)
          ∧ rates_ok w'
          ∧ length (stdout w')
            = (length (stdout batch_world)
               + length [("in/stereo.wav", "out/stereo.wav");
                         ("in/missing.wav", "out/missing.wav")]%string)%nat.
Proof.
  split; [exact batch_world_rates_ok |].
  exact (batch_loop_never_raises batch_world
           [("in/stereo.wav", "out/stereo.wav");
            ("in/missing.wav", "out/missing.wav")]%string
           batch_world_rates_ok).
Defined.

Section MainProperties.

Variable glob_glob : World → string → list string.
Variable os_path_split : string → string * string.
Variable os_path_join : string → string → string.
Variable os_path_dirname : string → string.
Variable os_makedirs : World → string → result World.

Lemma output_names_acc (output_root : string) (input_filenames : list string) :
  ∀ (acc : list string) (dirs : gset string),
    output_names os_path_split os_path_join os_path_dirname output_root
      input_filenames acc dirs
    = (acc ++ map (output_path os_path_split os_path_join output_root) input_filenames,
       list_to_set (map (fun i => os_path_dirname (output_path os_path_split os_path_join output_root i))
                        input_filenames) ∪ dirs).
Proof.
  induction input_filenames as [| i rest IH]; intros acc dirs; simpl.
  - rewrite app_nil_r, (left_id_L ∅ (∪)). reflexivity.
  - rewrite IH, <- app_assoc. simpl. f_equal.
    rewrite (assoc_L (∪)). f_equal. apply (comm_L (∪)).
Qed.

(** X12: the first loop of [main] maps every input file, in order, to
    [os.path.join(output_root, basename)], the directory part of the input
    being dropped, and collects exactly the directories of those output
    paths. *)
Theorem output_names_are_root_joined_basenames (output_root : string)
    (input_filenames : list string) :
  output_names os_path_split os_path_join os_path_dirname output_root
    input_filenames [] ∅
  = (map (output_path os_path_split os_path_join output_root) input_filenames,
     list_to_set (map (fun i => os_path_dirname (output_path os_path_split os_path_join output_root i))
                      input_filenames)).
Proof.
  rewrite output_names_acc. simpl. f_equal. apply (right_id_L ∅ (∪)).
Qed.

Lemma py_index_argv (prog pattern root : string) (rest : list string) :
  (len (prog :: pattern :: root :: rest) <? 3) = false
  ∧ py_index (prog :: pattern :: root :: rest) 1 = Ok pattern
  ∧ py_index (prog :: pattern :: root :: rest) 2 = Ok root.
Proof.
  assert (Hlen : 3 <= len (prog :: pattern :: root :: rest)).
  { unfold len. simpl length. lia. }
  split; [apply Z.ltb_ge; exact Hlen |]. split.
  - destruct (py_index_in_range (prog :: pattern :: root :: rest) 1)
      as (x & Hx & ->); [lia |]. simpl in Hx. congruence.
  - destruct (py_index_in_range (prog :: pattern :: root :: rest) 2)
      as (x & Hx & ->); [lia |]. simpl in Hx. congruence.
Qed.

(** X13: when the glob pattern matches no file, [main] returns 0 without
    creating a directory, reading a file or printing anything: the world
    is left as it was. *)
Theorem no_match_is_a_successful_no_op (w : World) (prog pattern root : string)
    (rest : list string) :
  glob_glob w pattern = [] →
  main glob_glob os_path_split os_path_join os_path_dirname os_makedirs w
       (prog :: pattern :: root :: rest)
  = (w, Ok 0).
Proof.
  intros Hglob. unfold main.
  destruct (py_index_argv prog pattern root rest) as (-> & -> & ->).
  rewrite Hglob. simpl. rewrite elements_empty. reflexivity.
Qed.

(** X14: with both arguments given, once the directories are created and
    every decodable file has a sample rate in [0, 2^44), [main] returns 0
    and the script exits with status 0 after printing exactly one message
    per matched file; the length assertion never fails. *)
Theorem main_reports_every_file (w w1 : World) (prog pattern root : string)
    (rest : list string) :
  make_dirs os_makedirs w
    (elements (snd (output_names os_path_split os_path_join os_path_dirname
                      root (glob_glob w pattern) [] ∅)))
    = (w1, Ok tt) →
  rates_ok w1 →
  ∃ w2,
    main glob_glob os_path_split os_path_join os_path_dirname os_makedirs w
         (prog :: pattern :: root :: rest) = (w2, Ok 0)
    ∧ run_script glob_glob os_path_split os_path_join os_path_dirname
        os_makedirs w (prog :: pattern :: root :: rest) = (w2, 0)
    ∧ length (stdout w2)
      = (length (stdout w1) + length (glob_glob w pattern))%nat.
Proof.
  intros Hdirs Hok. unfold run_script, main.
  destruct (py_index_argv prog pattern root rest) as (-> & -> & ->).
  rewrite output_names_acc in *.
  rewrite app_nil_l. simpl in Hdirs. rewrite Hdirs.
  unfold len. rewrite length_map, Z.eqb_refl. simpl.
  destruct (trim_files_total
              (zip (glob_glob w pattern)
                   (map (output_path os_path_split os_path_join root)
                        (glob_glob w pattern))) w1 Hok)
    as (w2 & -> & Hlen).
  exists w2. split; [reflexivity |]. split; [reflexivity |].
  rewrite Hlen. f_equal.
  rewrite length_zip_with, length_map. lia.
Qed.

End MainProperties.

Lemma no_match_is_a_successful_no_op_witness :
  (fun (_ : World) (_ : string) => @nil string) batch_world "in/*.flac"%string
    = []
  ∧ main (fun _ _ => []) example_split example_join example_dirname
      example_makedirs batch_world
      ["extract_loudest_section_python.py"; "in/*.flac"; "out"]%string
    = (batch_world, Ok 0).
Proof.
  split; [reflexivity |].
  apply (no_match_is_a_successful_no_op (fun _ _ => []) example_split
           example_join example_dirname example_makedirs batch_world
           "extract_loudest_section_python.py"%string "in/*.flac"%string
           "out"%string []).
  reflexivity.
Defined.

Lemma main_reports_every_file_witness :
  make_dirs example_makedirs batch_world
    (elements (snd (output_names example_split example_join example_dirname
                      "out" (example_glob batch_world "in/*.wav") [] ∅)))
    = (batch_world, Ok tt)
  ∧ rates_ok batch_world
  ∧ ∃ w2,
      main example_glob example_split example_join example_dirname
        example_makedirs batch_world
        ["extract_loudest_section_python.py"; "in/*.wav"; "out"]%string
      = (w2, Ok 0)
      ∧ run_script example_glob example_split example_join example_dirname
          example_makedirs batch_world
          ["extract_loudest_section_python.py"; "in/*.wav"; "out"]%string
        = (w2, 0)
      ∧ length (stdout w2)
        = (length (stdout batch_world)
           + length (example_glob batch_world "in/*.wav"))%nat.
Proof.
  assert (H : make_dirs example_makedirs batch_world
                (elements (snd (output_names example_split example_join
                                  example_dirname "out"
                                  (example_glob batch_world "in/*.wav") [] ∅)))
              = (batch_world, Ok tt)) by (vm_compute; reflexivity).
  split; [exact H |]. split; [exact batch_world_rates_ok |].
  exact (main_reports_every_file example_glob example_split example_join
           example_dirname example_makedirs batch_world batch_world
           "extract_loudest_section_python.py"%string "in/*.wav"%string
           "out"%string [] H batch_world_rates_ok).
Defined.

Example main_on_batch_world :
  stdout (fst (main example_glob example_split example_join example_dirname
                 example_makedirs batch_world
                 ["extract_loudest_section_python.py"; "in/*.wav"; "out"]%string))
  = [MsgSaved "out/stereo.wav";
     MsgSkipped "in/quiet.wav" (Finite (2000 # 2000000));
     MsgDecodeFailed "in/missing.wav"].
Proof. vm_compute. reflexivity. Qed.

(** X15: the duration of a saved file.  When the input decodes, the
    product [desired_length_ms * sample_rate] is in [0, 1000 * 2^44) and
    [trim_file] saves, the saved file has exactly
    [min (floor (desired_length_ms * sample_rate / 1000)) frame_count]
    frames. *)
Theorem saved_file_frame_count (w w' : World)
    (input_filename output_filename : string) (desired_length_ms : Z)
    (min_volume : Q) (wav : Wav) :
  sf_read w input_filename = Some wav →
  0 <= desired_length_ms * sample_rate wav < 1000 * 2 ^ 44 →
  trim_file w input_filename output_filename desired_length_ms min_volume
    = Ok w' →
  stdout w' = stdout w ++ [MsgSaved output_filename] →
  ∃ out,
    files w' !! output_filename = Some out
    ∧ len (wav_samples out)
      = Z.min (desired_length_ms * sample_rate wav / 1000)
              (len (wav_samples wav)).
Proof.
  intros Hread Hrate Hrun Hout. unfold trim_file in Hrun.
  rewrite Hread in Hrun. unfold desired_samples_of in Hrun.
  rewrite (int_of_true_divide_1000 _ Hrate) in Hrun. simpl in Hrun.
  set (d := desired_length_ms * sample_rate wav / 1000) in *.
  destruct (trim_to_loudest_segment_indices (mean_axis1 (wav_samples wav)) d)
    as [[s e] | ex] eqn:Hloc; [| discriminate Hrun]. simpl in Hrun.
  destruct (locator_range _ _ _ _ Hloc) as [Hse He].
  destruct (locator_ok_length _ _ _ _ Hloc) as [_ Hlen].
  rewrite len_mean_axis1 in He, Hlen.
  destruct (npfloat_ltb _ min_volume).
  { injection Hrun as <-. simpl in Hout.
    apply app_inv_head in Hout. discriminate Hout. }
  unfold sf_write in Hrun.
  destruct (writable w output_filename _ _).
  2:{ injection Hrun as <-. simpl in Hout.
      apply app_inv_head in Hout. discriminate Hout. }
  injection Hrun as <-.
  eexists. split; [simpl; apply lookup_insert_eq |]. simpl.
  rewrite len_map, len_py_slice by lia. exact Hlen.
Qed.

Lemma saved_file_frame_count_witness :
  sf_read stereo_world "stereo.wav" = Some stereo_wav
  ∧ 0 <= 1 * sample_rate stereo_wav < 1000 * 2 ^ 44
  ∧ trim_file stereo_world "stereo.wav" "out/stereo.wav" 1 min_volume_default
    = Ok stereo_saved_world
  ∧ stdout stereo_saved_world
    = stdout stereo_world ++ [MsgSaved "out/stereo.wav"]
  ∧ ∃ out,
      files stereo_saved_world !! "out/stereo.wav"%string = Some out
      ∧ len (wav_samples out)
        = Z.min (1 * sample_rate stereo_wav / 1000)
                (len (wav_samples stereo_wav)).
Proof.
  assert (H1 : sf_read stereo_world "stereo.wav" = Some stereo_wav)
    by (vm_compute; reflexivity).
  assert (H2 : 0 <= 1 * sample_rate stereo_wav < 1000 * 2 ^ 44)
    by (simpl; lia).
  assert (H3 : trim_file stereo_world "stereo.wav" "out/stereo.wav" 1
                 min_volume_default = Ok stereo_saved_world)
    by (vm_compute; reflexivity).
  assert (H4 : stdout stereo_saved_world
               = stdout stereo_world ++ [MsgSaved "out/stereo.wav"])
    by reflexivity.
  repeat (split; [assumption |]).
  exact (saved_file_frame_count stereo_world stereo_saved_world
           "stereo.wav"%string "out/stereo.wav"%string 1 min_volume_default
           stereo_wav H1 H2 H3 H4).
Defined.

(** * Trailing silence *)

Lemma energy_app (xs ys : list Q) :
  (energy (xs ++ ys) == energy xs + energy ys)%Q.
Proof.
  induction xs as [| x xs IH].
  - unfold energy at 2. simpl. ring.
  - simpl app. rewrite !energy_cons, IH. ring.
Qed.

Lemma energy_nonneg (xs : list Q) : (0 <= energy xs)%Q.
Proof.
  induction xs as [| x xs IH].
  - apply Qle_refl.
  - rewrite energy_cons.
    assert (Hx : (0 <= x * x)%Q).
    { unfold Qle, Qmult. destruct x as [n p]. simpl. nia. }
    replace 0%Q with (0 + 0)%Q by reflexivity.
    apply Qplus_le_compat; assumption.
Qed.

Lemma energy_take_le (xs : list Q) (m : nat) :
  (energy (take m xs) <= energy xs)%Q.
Proof.
  rewrite <- (take_drop m xs) at 2. rewrite energy_app.
  rewrite <- (Qplus_0_r (energy (take m xs))) at 1.
  apply Qplus_le_compat; [apply Qle_refl | apply energy_nonneg].
Qed.

Lemma energy_drop_le (xs : list Q) (m : nat) :
  (energy (drop m xs) <= energy xs)%Q.
Proof.
  rewrite <- (take_drop m xs) at 2. rewrite energy_app.
  rewrite <- (Qplus_0_l (energy (drop m xs))) at 1.
  apply Qplus_le_compat; [apply energy_nonneg | apply Qle_refl].
Qed.

Lemma energy_zeros (k : nat) : (energy (replicate k 0%Q) == 0)%Q.
Proof.
  induction k as [| k IH].
  - reflexivity.
  - simpl replicate. rewrite energy_cons, IH. ring.
Qed.

(** A window that lies inside the original input is not changed by the
    padding. *)
Lemma window_energy_padded_inside (l : list Q) (k : nat) (d j : Z) :
  0 <= d → 0 <= j → j + d <= len l →
  window_energy (l ++ replicate k 0%Q) d j = window_energy l d j.
Proof.
  intros Hd Hj Hjd.
  assert (Hlen : len (l ++ replicate k 0%Q) = len l + Z.of_nat k).
  { unfold len. rewrite length_app, length_replicate. lia. }
  rewrite !window_energy_in_range by lia.
  f_equal. rewrite drop_app, take_app.
  replace (Z.to_nat d - length (drop (Z.to_nat j) l))%nat with 0%nat.
  2:{ unfold len in Hjd. rewrite length_drop. lia. }
  rewrite take_0, app_nil_r. reflexivity.
Qed.

(** A window that reaches into the padding is no louder than the last
    window of the original input. *)
Lemma window_energy_padded_tail (l : list Q) (k : nat) (d j : Z) :
  0 <= d <= len l → len l - d <= j →
  j + d <= len l + Z.of_nat k →
  (window_energy (l ++ replicate k 0%Q) d j
   <= window_energy l d (len l - d))%Q.
Proof.
  intros Hd Hj Hjd.
  assert (Hlen : len (l ++ replicate k 0%Q) = len l + Z.of_nat k).
  { unfold len. rewrite length_app, length_replicate. lia. }
  rewrite !window_energy_in_range by lia.
  rewrite drop_app, take_app, energy_app.
  set (n := length l) in *.
  assert (Hn : len l = Z.of_nat n) by reflexivity.
  rewrite (take_ge (drop (Z.to_nat (len l - d)) l)).
  2:{ rewrite length_drop. fold n. lia. }
  assert (Hzero : (energy (take (Z.to_nat d - length (drop (Z.to_nat j) l))
                             (drop (Z.to_nat j - n) (replicate k 0%Q)))
                   <= 0)%Q).
  { eapply Qle_trans; [apply energy_take_le |].
    eapply Qle_trans; [apply energy_drop_le |].
    rewrite energy_zeros. apply Qle_refl. }
  assert (Hleft : (energy (take (Z.to_nat d) (drop (Z.to_nat j) l))
                   <= energy (drop (Z.to_nat (len l - d)) l))%Q).
  { eapply Qle_trans; [apply energy_take_le |].
    replace (Z.to_nat j)
      with (Z.to_nat (len l - d) + (Z.to_nat j - Z.to_nat (len l - d)))%nat
      by lia.
    rewrite <- drop_drop. apply energy_drop_le. }
  rewrite <- (Qplus_0_r (energy (drop (Z.to_nat (len l - d)) l))).
  apply Qplus_le_compat; assumption.
Qed.

(** For [0 <= d <= len l] the locator returns the leftmost window of
    maximal energy; with [d = len l] that is the whole input. *)
Lemma locator_spec_le (l : list Q) (d : Z) :
  0 <= d <= len l →
  ∃ s, trim_to_loudest_segment_indices l d = Ok (s, s + d)
       ∧ 0 <= s <= len l - d
       ∧ (∀ j, 0 <= j <= len l - d →
            (window_energy l d j <= window_energy l d s)%Q)
       ∧ (∀ j, 0 <= j < s →
            (window_energy l d j < window_energy l d s)%Q).
Proof.
  intros [Hd Hle].
  destruct (Z_lt_le_dec d (len l)) as [Hlt | Hge].
  - apply locator_spec. lia.
  - exists 0. assert (d = len l) as -> by lia.
    split.
    + unfold trim_to_loudest_segment_indices.
      rewrite Z.leb_refl. reflexivity.
    + split; [lia |]. split.
      * intros j Hj. replace j with 0 by lia. apply Qle_refl.
      * intros j Hj. lia.
Qed.

(** X17: trailing silence is ignored.  Appending any number of zero
    samples to the input does not change the located window, for every
    window length up to the length of the original input. *)
Theorem trailing_silence_is_ignored (input_samples : list Q) (k : nat)
    (desired_samples : Z) :
  0 <= desired_samples <= len input_samples →
  trim_to_loudest_segment_indices (input_samples ++ replicate k 0%Q)
    desired_samples
  = trim_to_loudest_segment_indices input_samples desired_samples.
Proof.
  intros Hd.
  set (l := input_samples) in *. set (d := desired_samples) in *.
  set (l' := l ++ replicate k 0%Q).
  assert (Hlen : len l' = len l + Z.of_nat k).
  { unfold len, l'. rewrite length_app, length_replicate. lia. }
  destruct (locator_spec_le l d Hd) as (s & -> & Hs & Hmax & Hleft).
  destruct (locator_spec_le l' d ltac:(lia)) as (s' & -> & Hs' & Hmax' & Hleft').
  assert (Hin : ∀ j, 0 <= j <= len l - d →
                  window_energy l' d j = window_energy l d j).
  { intros j Hj. apply window_energy_padded_inside; lia. }
  assert (Hbound : s' <= len l - d).
  { destruct (Z_le_gt_dec s' (len l - d)) as [Hok | Hgt]; [exact Hok |].
    exfalso. apply (Qlt_not_le _ _ (Hleft' (len l - d) ltac:(lia))).
    rewrite (Hin (len l - d)) by lia.
    apply window_energy_padded_tail; lia. }
  destruct (Z.lt_trichotomy s s') as [Hlt | [-> | Hgt]].
  - exfalso. pose proof (Hleft' s ltac:(lia)) as Hc.
    rewrite !Hin in Hc by lia.
    apply (Qlt_not_le _ _ Hc). apply Hmax. lia.
  - reflexivity.
  - exfalso. pose proof (Hleft s' ltac:(lia)) as Hc.
    rewrite <- !Hin in Hc by lia.
    apply (Qlt_not_le _ _ Hc). apply Hmax'. lia.
Qed.

Lemma trailing_silence_is_ignored_witness :
  0 <= 2 <= len [1; 3; -2; 1]%Q
  ∧ trim_to_loudest_segment_indices ([1; 3; -2; 1]%Q ++ replicate 3 0%Q) 2
    = trim_to_loudest_segment_indices [1; 3; -2; 1]%Q 2.
Proof.
  split; [unfold len; simpl; lia |].
  apply (trailing_silence_is_ignored [1; 3; -2; 1]%Q 3 2).
  unfold len; simpl; lia.
Defined.

(** * The IEEE arithmetics

    Sanity checks of the rounding model against values Python prints:
    [numpy.float32(0.004)] is 8589935 / 2^31, [0.1 + 0.2] is
    [0.30000000000000004] and not [0.3], a binary32 product overflows to
    [inf], and [inf - inf] is [nan]. *)
Example round_to_binary32_of_0_004 :
  round_to binary32 (4 # 1000) = Finite (8589935 # 2147483648).
Proof. vm_compute. reflexivity. Qed.

Example binary64_one_tenth_plus_two_tenths :
  fl_add binary64 (round_to binary64 (1 # 10)) (round_to binary64 (2 # 10))
  = round_to binary64 (30000000000000004 # 100000000000000000)
  ∧ fl_add binary64 (round_to binary64 (1 # 10)) (round_to binary64 (2 # 10))
    ≠ round_to binary64 (3 # 10).
Proof. split; vm_compute; [reflexivity | discriminate]. Qed.

Example binary32_overflow_and_nan :
  fl_mul binary32 (Finite (inject_Z (2 ^ 100))) (Finite (inject_Z (2 ^ 100)))
  = Infinity false
  ∧ fl_sub binary32 (Infinity false) (Infinity false) = NaN
  ∧ fl_gt NaN (Finite 0) = false.
Proof. repeat split; vm_compute; reflexivity. Qed.

(** * Properties over every arithmetic

    What follows holds of the locator and of the trimmer whatever the
    arithmetic of the sample array is: exact, binary32 or binary64 with
    their roundings, infinities and [nan]. *)

Section AnyArith.

Variable A : Arith.

Lemma slide_step_in_exn (l : list (num A)) (d : Z) (st : LoopStateIn A)
    (i : Z) (e : Exn) :
  slide_step_in A l d st i = Raise e → e = IndexError.
Proof.
  unfold slide_step_in.
  destruct (py_index l (i - 1)) as [t | e1] eqn:H1; simpl.
  - destruct (py_index l (i + d - 1)) as [x | e2] eqn:H2; simpl.
    + destruct (agt A _ _); discriminate.
    + intros [= <-]. exact (py_index_exn _ _ _ H2).
  - intros [= <-]. exact (py_index_exn _ _ _ H1).
Qed.

(** One iteration with both reads in bounds returns, and the best index
    stays among the windows examined. *)
Lemma slide_step_in_index (l : list (num A)) (d i : Z) (st : LoopStateIn A) :
  0 <= d → i < len l - d + 1 →
  1 <= i ∧ 0 <= loudest_start_index_in A st <= i - 1 →
  ∃ st', slide_step_in A l d st i = Ok st'
         ∧ 1 <= i + 1 ∧ 0 <= loudest_start_index_in A st' <= i + 1 - 1.
Proof.
  intros Hd Hi [H1 Hidx].
  destruct (py_index_in_range l (i - 1)) as (t & _ & Ht); [lia |].
  destruct (py_index_in_range l (i + d - 1)) as (x & _ & Hx); [lia |].
  unfold slide_step_in. rewrite Ht. simpl. rewrite Hx. simpl.
  destruct (agt A _ _); eexists; (split; [reflexivity |]); simpl; lia.
Qed.

Lemma locator_in_shorter (l : list (num A)) (d : Z) :
  0 <= d < len l →
  ∃ s, trim_to_loudest_segment_indices_in A l d = Ok (s, s + d)
       ∧ 0 <= s <= len l - d.
Proof.
  intros Hd. unfold trim_to_loudest_segment_indices_in.
  destruct (Z.leb_spec (len l) d) as [Hge | _]; [lia |].
  set (st0 := mkLoopStateIn A _ _ 0).
  destruct (for_each_invariant (slide_step_in A l d)
              (fun i st => 1 <= i ∧ 0 <= loudest_start_index_in A st <= i - 1)
              (len l - d + 1)
              (fun i st Hi => slide_step_in_index l d i st (proj1 Hd) Hi)
              (Z.to_nat (len l - d)) 1 st0)
    as (st & Hrun & _ & Hidx); [lia | simpl; lia |].
  rewrite Hrun. simpl. exists (loudest_start_index_in A st).
  split; [reflexivity | lia].
Qed.

Lemma locator_in_negative (l : list (num A)) (d : Z) :
  d < 0 → trim_to_loudest_segment_indices_in A l d = Raise IndexError.
Proof.
  intros Hd. unfold trim_to_loudest_segment_indices_in.
  pose proof (len_nonneg l) as Hn.
  destruct (Z.leb_spec (len l) d) as [Hge | _]; [lia |].
  set (st0 := mkLoopStateIn A _ _ 0).
  destruct (for_each_raises (slide_step_in A l d) (len l + 1)
              (py_range 1 (len l - d + 1))) with (st := st0) as (e & He).
  - apply py_range_elem. lia.
  - intros st. exists IndexError. unfold slide_step_in, py_index.
    replace (len l + 1 - 1) with (len l) by lia.
    destruct (Z.ltb_spec (len l) 0) as [Hneg | _]; [lia |].
    destruct (Z.ltb_spec (len l) 0) as [Hneg | _]; [lia |].
    destruct (Z.leb_spec (len l) (len l)) as [_ | Hlt]; [| lia].
    reflexivity.
  - rewrite He. simpl.
    rewrite (for_each_exn _ IndexError (slide_step_in_exn l d) _ _ _ He).
    reflexivity.
Qed.

Lemma locator_in_ok (l : list (num A)) (d start stop : Z) :
  trim_to_loudest_segment_indices_in A l d = Ok (start, stop) →
  0 <= d ∧ 0 <= start ∧ start <= stop ∧ stop <= len l
  ∧ stop - start = Z.min d (len l).
Proof.
  intros Hret. pose proof (len_nonneg l) as Hn.
  destruct (Z_lt_le_dec d 0) as [Hneg | Hd].
  - rewrite (locator_in_negative l d Hneg) in Hret. discriminate Hret.
  - destruct (Z_lt_le_dec d (len l)) as [Hlt | Hge].
    + destruct (locator_in_shorter l d (conj Hd Hlt)) as (s & Hs & Hb).
      rewrite Hs in Hret. injection Hret as <- <-. lia.
    + unfold trim_to_loudest_segment_indices_in in Hret.
      destruct (Z.leb_spec (len l) d) as [_ | Hlt]; [| lia].
      injection Hret as <- <-. lia.
Qed.

Lemma len_mean_axis1_in (a : list (list Q)) : len (mean_axis1_in A a) = len a.
Proof. unfold mean_axis1_in. apply len_map. Qed.

(** Every normal return of [trim_file]: a message other than "saved" and
    nothing else, or the located window of the decoded input handed to
    [sf.write] and stored as the encoder stores it. *)
Lemma trim_file_in_cases (w w' : World)
    (input_filename output_filename : string) (desired_length_ms : Z)
    (min_volume : Q) :
  trim_file_in A w input_filename output_filename desired_length_ms min_volume
    = Ok w' →
  (∃ m, w' = print w m ∧ m ≠ MsgSaved output_filename
        ∧ ∀ v, m = MsgSkipped input_filename v →
            ∃ wav d start_idx end_idx,
              sf_read w input_filename = Some wav
              ∧ desired_samples_of desired_length_ms (sample_rate wav) = Ok d
              ∧ trim_to_loudest_segment_indices_in A
                  (mean_axis1_in A (wav_samples wav)) d
                = Ok (start_idx, end_idx)
              ∧ v = np_mean_in A
                      (map (aabs A)
                           (py_slice (mean_axis1_in A (wav_samples wav))
                                     start_idx end_idx))
              ∧ npfloat_ltb v min_volume = true)
  ∨ (∃ wav d start_idx end_idx,
       sf_read w input_filename = Some wav
       ∧ desired_samples_of desired_length_ms (sample_rate wav) = Ok d
       ∧ trim_to_loudest_segment_indices_in A
           (mean_axis1_in A (wav_samples wav)) d
         = Ok (start_idx, end_idx)
       ∧ npfloat_ltb
           (np_mean_in A
              (map (aabs A)
                   (py_slice (mean_axis1_in A (wav_samples wav))
                             start_idx end_idx)))
           min_volume = false
       ∧ w' = print (mkWorld (<[output_filename :=
                                 mkWav (map (map (requantise w output_filename))
                                            (py_slice (wav_samples wav)
                                                      start_idx end_idx))
                                       (sample_rate wav)]> (files w))
                             (writable w) (requantise w) (stdout w))
                    (MsgSaved output_filename)).
Proof.
  unfold trim_file_in.
  destruct (sf_read w input_filename) as [wav |] eqn:Hread.
  2:{ intros [= <-]. left. eexists. split; [reflexivity |].
      split; discriminate. }
  destruct (desired_samples_of _ _) as [d | ex] eqn:Hd; [| discriminate].
  simpl.
  destruct (trim_to_loudest_segment_indices_in A _ d) as [[s e] | ex] eqn:Hloc;
    [| discriminate]. simpl.
  destruct (npfloat_ltb _ _) eqn:Hgate.
  { intros [= <-]. left. eexists. split; [reflexivity |].
    split; [discriminate |]. intros v [= <-].
    exists wav, d, s, e. repeat split; assumption. }
  unfold sf_write. destruct (writable w output_filename _ _).
  - intros [= <-]. right. exists wav, d, s, e. repeat split; assumption.
  - intros [= <-]. left. eexists. split; [reflexivity |].
    split; discriminate.
Qed.

End AnyArith.

Lemma exact_mean_axis1_is_instance (a : list (list Q)) :
  mean_axis1_in exact_arith a = mean_axis1 a.
Proof.
  unfold mean_axis1_in, mean_axis1. apply map_ext. intros row.
  cbn [exact_arith adiv asum of_sample]. rewrite map_id. reflexivity.
Qed.

Lemma exact_np_mean_is_instance (xs : list Q) :
  np_mean_in exact_arith (map (aabs exact_arith) xs) = np_mean (np_abs xs).
Proof. destruct xs; reflexivity. Qed.

(** The trimmer of the first part is the trimmer over exact arithmetic. *)
Lemma exact_trim_file_is_instance (w : World)
    (input_filename output_filename : string) (desired_length_ms : Z)
    (min_volume : Q) :
  trim_file_in exact_arith w input_filename output_filename desired_length_ms
               min_volume
  = trim_file w input_filename output_filename desired_length_ms min_volume.
Proof.
  unfold trim_file_in, trim_file.
  destruct (sf_read w input_filename) as [wav |]; [| reflexivity].
  rewrite exact_mean_axis1_is_instance.
  destruct (desired_samples_of _ _) as [d | e]; [| reflexivity]. simpl.
  rewrite exact_locator_is_instance.
  destruct (trim_to_loudest_segment_indices _ d) as [[s e] | e];
    [| reflexivity]. simpl.
  rewrite exact_np_mean_is_instance. reflexivity.
Qed.

(** ** The volume threshold *)




(** ** The written file *)

Lemma lookup_map {T U : Type} (f : T → U) (l : list T) (i : nat) :
  map f l !! i = f <$> (l !! i).
Proof.
  revert i. induction l as [| x l IH]; intros [| i]; simpl; auto.
Qed.

(** C7: when [trim_file] writes an output, the file holds the frames
    [start, end) of the decoded buffer with the same sample rate and
    channel count, but each sample as the encoder of the output file
    stores it: [output[f - start, c] = requantise (input[f, c])].  The code
    passes no subtype to [sf.write], so a WAV output is 16-bit PCM: the
    binary32 sample nearest to 0.004 is written as 131/32768, a different
    value. *)
Theorem saved_samples_are_requantised :
  (∀ (A : Arith) (w w' : World) (input_filename output_filename : string)
     (desired_length_ms : Z) (min_volume : Q) (wav : Wav) (channels : Z),
     sf_read w input_filename = Some wav →
     always_2d (wav_samples wav) channels →
     trim_file_in A w input_filename output_filename desired_length_ms
                  min_volume = Ok w' →
     stdout w' = stdout w ++ [MsgSaved output_filename] →
     ∃ desired_samples start_idx end_idx out,
       desired_samples_of desired_length_ms (sample_rate wav)
         = Ok desired_samples
       ∧ trim_to_loudest_segment_indices_in A
           (mean_axis1_in A (wav_samples wav)) desired_samples
         = Ok (start_idx, end_idx)
       ∧ 0 <= start_idx <= end_idx ∧ end_idx <= len (wav_samples wav)
       ∧ files w' !! output_filename = Some out
       ∧ sample_rate out = sample_rate wav
       ∧ len (wav_samples out) = end_idx - start_idx
       ∧ always_2d (wav_samples out) channels
       ∧ ∀ f c, start_idx <= f < end_idx → 0 <= c < channels →
           ∃ x, array2_get (wav_samples wav) f c = Ok x
                ∧ array2_get (wav_samples out) (f - start_idx) c
                  = Ok (requantise w output_filename x))
  ∧ ((fun w' => files w' !! "out.wav"%string)
       <$> trim_file_in (ieee_arith binary32) threshold_world
             "in.wav" "out.wav" 1000 min_volume_default
     = Ok (Some (mkWav [[131 # 32768]]%Q 8000))
     ∧ wav_samples threshold_wav = [[8589935 # 2147483648]]%Q
     ∧ is_representable binary32 (8589935 # 2147483648) = true
     ∧ ¬ (131 # 32768 == 8589935 # 2147483648)%Q).
Proof.
  split.
  2:{ split; [vm_compute; reflexivity |]. split; [reflexivity |].
      split; [vm_compute; reflexivity |]. intros H. discriminate H. }
  intros A w w' input output ms min_volume wav channels Hread H2d Hrun Hout.
  destruct (trim_file_in_cases A _ _ _ _ _ _ Hrun)
    as [(m & -> & Hm & _) | (wav' & d & s & e & Hread' & Hd & Hloc & _ & ->)].
  { simpl in Hout. apply app_inv_head in Hout. congruence. }
  assert (wav' = wav) as -> by congruence.
  destruct (locator_in_ok A _ _ _ _ Hloc) as (_ & Hs & Hse & He & _).
  rewrite len_mean_axis1_in in He.
  exists d, s, e,
    (mkWav (map (map (requantise w output)) (py_slice (wav_samples wav) s e))
           (sample_rate wav)).
  split; [exact Hd |]. split; [exact Hloc |].
  split; [lia |]. split; [lia |].
  split; [simpl; apply lookup_insert_eq |].
  split; [reflexivity |].
  split; [simpl; rewrite len_map; apply len_py_slice; lia |]. split.
  - destruct H2d as [Hc Hrows]. split; [exact Hc |]. simpl.
    rewrite py_slice_in_range by lia.
    apply Forall_map. eapply Forall_impl.
    + apply Forall_take, Forall_drop, Hrows.
    + intros row Hrow. simpl. rewrite len_map. exact Hrow.
  - intros f c Hf Hc. simpl.
    destruct (py_index_slice (wav_samples wav) s e f) as (row & Ho & Hi);
      [lia .. |].
    destruct (py_index_in_range (wav_samples wav) f) as (row' & Hrow' & Hi');
      [lia |].
    assert (row' = row) as -> by congruence.
    destruct H2d as [_ Hrows].
    rewrite Forall_lookup in Hrows. specialize (Hrows _ _ Hrow').
    destruct (py_index_in_range row c) as (x & Hxl & Hx); [lia |].
    exists x. unfold array2_get. rewrite Hi. simpl. split; [exact Hx |].
    destruct (py_index_in_range
                (map (map (requantise w output)) (py_slice (wav_samples wav) s e))
                (f - s)) as (orow & Horow & ->).
    { rewrite len_map, len_py_slice by lia. lia. }
    simpl.
    assert (Hrow_out : orow = map (requantise w output) row).
    { destruct (py_index_in_range (py_slice (wav_samples wav) s e) (f - s))
        as (r2 & Hr2 & Hp2); [rewrite len_py_slice by lia; lia |].
      assert (r2 = row) as -> by congruence.
      rewrite lookup_map, Hr2 in Horow. simpl in Horow. congruence. }
    rewrite Hrow_out.
    destruct (py_index_in_range (map (requantise w output) row) c)
      as (y & Hy & ->); [rewrite len_map; lia |].
    rewrite lookup_map, Hxl in Hy. simpl in Hy. congruence.
Qed.

Lemma saved_samples_are_requantised_witness :
  sf_read threshold_world "in.wav" = Some threshold_wav
  ∧ always_2d (wav_samples threshold_wav) 1
  ∧ trim_file_in (ieee_arith binary32) threshold_world "in.wav" "out.wav"
      1000 min_volume_default = Ok threshold_saved_world
  ∧ stdout threshold_saved_world
    = stdout threshold_world ++ [MsgSaved "out.wav"]
  ∧ ∃ desired_samples start_idx end_idx out,
      desired_samples_of 1000 (sample_rate threshold_wav) = Ok desired_samples
      ∧ trim_to_loudest_segment_indices_in (ieee_arith binary32)
          (mean_axis1_in (ieee_arith binary32) (wav_samples threshold_wav))
          desired_samples = Ok (start_idx, end_idx)
      ∧ 0 <= start_idx <= end_idx ∧ end_idx <= len (wav_samples threshold_wav)
      ∧ files threshold_saved_world !! "out.wav"%string = Some out
      ∧ sample_rate out = sample_rate threshold_wav
      ∧ len (wav_samples out) = end_idx - start_idx
      ∧ always_2d (wav_samples out) 1
      ∧ ∀ f c, start_idx <= f < end_idx → 0 <= c < 1 →
          ∃ x, array2_get (wav_samples threshold_wav) f c = Ok x
               ∧ array2_get (wav_samples out) (f - start_idx) c
                 = Ok (requantise threshold_world "out.wav" x).
Proof.
  assert (H1 : sf_read threshold_world "in.wav" = Some threshold_wav)
    by (vm_compute; reflexivity).
  assert (H2 : always_2d (wav_samples threshold_wav) 1).
  { split; [lia |]. repeat constructor. }
  assert (H3 : trim_file_in (ieee_arith binary32) threshold_world "in.wav"
                 "out.wav" 1000 min_volume_default = Ok threshold_saved_world)
    by (vm_compute; reflexivity).
  assert (H4 : stdout threshold_saved_world
               = stdout threshold_world ++ [MsgSaved "out.wav"])
    by reflexivity.
  repeat (split; [assumption |]).
  exact (proj1 saved_samples_are_requantised (ieee_arith binary32)
           threshold_world threshold_saved_world "in.wav"%string
           "out.wav"%string 1000 min_volume_default threshold_wav 1
           H1 H2 H3 H4).
Defined.

(** X16: a skip reports what the code computed and changes nothing.  In
    every arithmetic, when [trim_file] prints the too-quiet message the
    value in it is the mean of the absolute values of the mono reduction
    over the located window as computed in that arithmetic, it compared
    strictly below [min_volume] (so it is not [nan]), and the files are as
    they were. *)
Theorem skip_reports_the_gating_mean (A : Arith) (w w' : World)
    (input_filename output_filename : string) (desired_length_ms : Z)
    (min_volume : Q) (reported : npfloat) :
  trim_file_in A w input_filename output_filename desired_length_ms min_volume
    = Ok w' →
  stdout w' = stdout w ++ [MsgSkipped input_filename reported] →
  ∃ wav desired_samples start_idx end_idx,
    sf_read w input_filename = Some wav
    ∧ desired_samples_of desired_length_ms (sample_rate wav)
      = Ok desired_samples
    ∧ trim_to_loudest_segment_indices_in A (mean_axis1_in A (wav_samples wav))
        desired_samples = Ok (start_idx, end_idx)
    ∧ reported
      = np_mean_in A (map (aabs A)
                          (py_slice (mean_axis1_in A (wav_samples wav))
                                    start_idx end_idx))
    ∧ npfloat_ltb reported min_volume = true
    ∧ reported ≠ NaN
    ∧ files w' = files w.
Proof.
  intros Hrun Hout.
  destruct (trim_file_in_cases A _ _ _ _ _ _ Hrun)
    as [(m & -> & _ & Hskip) | (wav & d & s & e & _ & _ & _ & _ & ->)].
  - simpl in Hout. apply app_inv_head in Hout. injection Hout as ->.
    destruct (Hskip reported eq_refl)
      as (wav & d & s & e & Hread & Hd & Hloc & Hrep & Hgate).
    exists wav, d, s, e. repeat split; try assumption.
    intros ->. discriminate Hgate.
  - simpl in Hout. apply app_inv_head in Hout. discriminate Hout.
Qed.

Lemma skip_reports_the_gating_mean_witness :
  trim_file_in (ieee_arith binary32) rounded_down_world "in.wav" "out.wav"
    1000 min_volume_default
  = Ok (print rounded_down_world
          (MsgSkipped "in.wav" (Finite (8589934 # 2147483648))))
  ∧ stdout (print rounded_down_world
              (MsgSkipped "in.wav" (Finite (8589934 # 2147483648))))
    = stdout rounded_down_world
      ++ [MsgSkipped "in.wav" (Finite (8589934 # 2147483648))]
  ∧ ∃ wav desired_samples start_idx end_idx,
      sf_read rounded_down_world "in.wav" = Some wav
      ∧ desired_samples_of 1000 (sample_rate wav) = Ok desired_samples
      ∧ trim_to_loudest_segment_indices_in (ieee_arith binary32)
          (mean_axis1_in (ieee_arith binary32) (wav_samples wav))
          desired_samples = Ok (start_idx, end_idx)
      ∧ Finite (8589934 # 2147483648)
        = np_mean_in (ieee_arith binary32)
            (map (aabs (ieee_arith binary32))
                 (py_slice (mean_axis1_in (ieee_arith binary32)
                              (wav_samples wav)) start_idx end_idx))
      ∧ npfloat_ltb (Finite (8589934 # 2147483648)) min_volume_default = true
      ∧ Finite (8589934 # 2147483648) ≠ NaN
      ∧ files (print rounded_down_world
                 (MsgSkipped "in.wav" (Finite (8589934 # 2147483648))))
        = files rounded_down_world.
Proof.
  assert (H : trim_file_in (ieee_arith binary32) rounded_down_world "in.wav"
                "out.wav" 1000 min_volume_default
              = Ok (print rounded_down_world
                      (MsgSkipped "in.wav" (Finite (8589934 # 2147483648)))))
    by (vm_compute; reflexivity).
  split; [exact H |]. split; [reflexivity |].
  exact (skip_reports_the_gating_mean (ieee_arith binary32) rounded_down_world
           _ "in.wav"%string "out.wav"%string 1000 min_volume_default
           (Finite (8589934 # 2147483648)) H eq_refl).
Defined.

(** ** Re-trimming *)

(** X10: re-trimming a saved file never shortens it.  In every arithmetic,
    after [trim_file] has saved a file, running it on that file with the
    same [desired_length_ms] locates the whole file: it is either skipped
    as too quiet (which the requantisation of the samples can cause) or
    all its frames are handed to [sf.write]. *)
Theorem retrim_selects_the_whole_file (A : Arith) (w w1 : World)
    (input_filename output_filename again_filename : string)
    (desired_length_ms : Z) (min_volume : Q) :
  trim_file_in A w input_filename output_filename desired_length_ms min_volume
    = Ok w1 →
  stdout w1 = stdout w ++ [MsgSaved output_filename] →
  ∃ trimmed,
    files w1 !! output_filename = Some trimmed
    ∧ trim_file_in A w1 output_filename again_filename desired_length_ms
                   min_volume
      = if npfloat_ltb
             (np_mean_in A (map (aabs A)
                                (mean_axis1_in A (wav_samples trimmed))))
             min_volume
        then Ok (print w1
                   (MsgSkipped output_filename
                      (np_mean_in A
                         (map (aabs A)
                              (mean_axis1_in A (wav_samples trimmed))))))
        else match sf_write w1 again_filename (wav_samples trimmed)
                     (sample_rate trimmed) with
             | Some w2 => Ok (print w2 (MsgSaved again_filename))
             | None => Ok (print w1 (MsgWriteFailed again_filename))
             end.
Proof.
  intros Hrun Hout.
  destruct (trim_file_in_cases A _ _ _ _ _ _ Hrun)
    as [(m & -> & Hm & _) | (wav & d & s & e & Hread & Hd & Hloc & _ & ->)].
  { simpl in Hout. apply app_inv_head in Hout. congruence. }
  clear Hout Hrun.
  destruct (locator_in_ok A _ _ _ _ Hloc) as (Hd0 & Hs & Hse & He & Hlen).
  rewrite len_mean_axis1_in in He, Hlen.
  set (frames := map (map (requantise w output_filename))
                     (py_slice (wav_samples wav) s e)).
  exists (mkWav frames (sample_rate wav)).
  split; [simpl; apply lookup_insert_eq |].
  assert (Hframes : len frames = e - s).
  { unfold frames. rewrite len_map. apply len_py_slice; lia. }
  unfold trim_file_in at 1. unfold sf_read at 1. cbn [files print].
  rewrite lookup_insert_eq. cbn [sample_rate wav_samples].
  rewrite Hd. simpl.
  assert (Hloc2 : trim_to_loudest_segment_indices_in A
                    (mean_axis1_in A frames) d = Ok (0, len frames)).
  { unfold trim_to_loudest_segment_indices_in. rewrite len_mean_axis1_in.
    destruct (Z.leb_spec (len frames) d) as [_ | Hlt]; [reflexivity | lia]. }
  rewrite Hloc2. simpl.
  rewrite <- (len_mean_axis1_in A frames) at 1. rewrite py_slice_all.
  rewrite <- (len_mean_axis1_in A frames) at 1. rewrite py_slice_all.
  rewrite py_slice_all. reflexivity.
Qed.

Lemma retrim_selects_the_whole_file_witness :
  trim_file_in (ieee_arith binary32) threshold_world "in.wav" "out.wav"
    1000 min_volume_default = Ok threshold_saved_world
  ∧ stdout threshold_saved_world
    = stdout threshold_world ++ [MsgSaved "out.wav"]
  ∧ ∃ trimmed,
      files threshold_saved_world !! "out.wav"%string = Some trimmed
      ∧ trim_file_in (ieee_arith binary32) threshold_saved_world "out.wav"
          "again.wav" 1000 min_volume_default
        = if npfloat_ltb
               (np_mean_in (ieee_arith binary32)
                  (map (aabs (ieee_arith binary32))
                       (mean_axis1_in (ieee_arith binary32)
                          (wav_samples trimmed))))
               min_volume_default
          then Ok (print threshold_saved_world
                     (MsgSkipped "out.wav"
                        (np_mean_in (ieee_arith binary32)
                           (map (aabs (ieee_arith binary32))
                                (mean_axis1_in (ieee_arith binary32)
                                   (wav_samples trimmed))))))
          else match sf_write threshold_saved_world "again.wav"
                       (wav_samples trimmed) (sample_rate trimmed) with
               | Some w2 => Ok (print w2 (MsgSaved "again.wav"))
               | None =>
                   Ok (print threshold_saved_world (MsgWriteFailed "again.wav"))
               end.
Proof.
  assert (H : trim_file_in (ieee_arith binary32) threshold_world "in.wav"
                "out.wav" 1000 min_volume_default = Ok threshold_saved_world)
    by (vm_compute; reflexivity).
  split; [exact H |]. split; [reflexivity |].
  exact (retrim_selects_the_whole_file (ieee_arith binary32) threshold_world
           threshold_saved_world "in.wav"%string "out.wav"%string
           "again.wav"%string 1000 min_volume_default H eq_refl).
Defined.

(** The second pass over the 16-bit file of the example is skipped: 0.004
    was stored as 131/32768. *)
Example retrim_of_requantised_file_is_skipped :
  stdout <$> trim_file_in (ieee_arith binary32) threshold_saved_world
               "out.wav" "again.wav" 1000 min_volume_default
  = Ok [MsgSaved "out.wav"; MsgSkipped "out.wav" (Finite (8585216 # 2147483648))].
Proof. vm_compute. reflexivity. Qed.

(** ** The locator and the trimmer never depend on the arithmetic to
       return *)

(** X18: in every arithmetic, for [desired_samples >= 0] the locator
    returns a range inside the input of exactly
    [min desired_samples (len input_samples)] samples; rounding, infinities
    and [nan] change which window is chosen, never whether one is. *)
Theorem locator_returns_in_every_arithmetic (A : Arith)
    (input_samples : list (num A)) (desired_samples : Z) :
  0 <= desired_samples →
  ∃ start stop,
    trim_to_loudest_segment_indices_in A input_samples desired_samples
      = Ok (start, stop)
    ∧ 0 <= start ∧ start <= stop ∧ stop <= len input_samples
    ∧ stop - start = Z.min desired_samples (len input_samples).
Proof.
  intros Hd. pose proof (len_nonneg input_samples) as Hn.
  destruct (Z_lt_le_dec desired_samples (len input_samples)) as [Hlt | Hge].
  - destruct (locator_in_shorter A input_samples desired_samples (conj Hd Hlt))
      as (s & Hret & Hs).
    exists s, (s + desired_samples). split; [exact Hret | lia].
  - exists 0, (len input_samples). split; [| lia].
    unfold trim_to_loudest_segment_indices_in.
    destruct (Z.leb_spec (len input_samples) desired_samples); [| lia].
    reflexivity.
Qed.

Lemma locator_returns_in_every_arithmetic_witness :
  0 <= 2
  ∧ ∃ start stop,
      trim_to_loudest_segment_indices_in (ieee_arith binary32)
        [Finite 1; NaN; Infinity false; Finite (1 # 2)] 2 = Ok (start, stop)
      ∧ 0 <= start ∧ start <= stop
      ∧ stop <= len [Finite 1; NaN; Infinity false; Finite (1 # 2)]
      ∧ stop - start
        = Z.min 2 (len [Finite 1; NaN; Infinity false; Finite (1 # 2)]).
Proof.
  split; [lia |].
  apply (locator_returns_in_every_arithmetic (ieee_arith binary32)
           [Finite 1; NaN; Infinity false; Finite (1 # 2)] 2).
  lia.
Defined.

(** X19: in every arithmetic [trim_file] returns normally when, for a
    decodable input, [0 <= desired_length_ms * sample_rate < 1000 * 2^44]:
    no exception leaves it, whatever the samples are. *)
Theorem trim_file_returns_in_every_arithmetic (A : Arith) (w : World)
    (input_filename output_filename : string) (desired_length_ms : Z)
    (min_volume : Q) :
  (∀ wav, sf_read w input_filename = Some wav →
     0 <= desired_length_ms * sample_rate wav < 1000 * 2 ^ 44) →
  ∃ w', trim_file_in A w input_filename output_filename desired_length_ms
                     min_volume = Ok w'.
Proof.
  intros Hrate. unfold trim_file_in.
  destruct (sf_read w input_filename) as [wav |]; [| eexists; reflexivity].
  specialize (Hrate wav eq_refl). unfold desired_samples_of.
  rewrite (int_of_true_divide_1000 _ Hrate). simpl.
  set (d := desired_length_ms * sample_rate wav / 1000).
  assert (Hd : 0 <= d) by (apply Z.div_pos; lia).
  pose proof (len_nonneg (mean_axis1_in A (wav_samples wav))) as Hn.
  assert (Hloc : ∃ s e, trim_to_loudest_segment_indices_in A
                          (mean_axis1_in A (wav_samples wav)) d = Ok (s, e)).
  { destruct (Z_lt_le_dec d (len (mean_axis1_in A (wav_samples wav))))
      as [Hlt | Hge].
    - destruct (locator_in_shorter A _ d (conj Hd Hlt)) as (s & Hs & _).
      eauto.
    - unfold trim_to_loudest_segment_indices_in.
      destruct (Z.leb_spec (len (mean_axis1_in A (wav_samples wav))) d);
        [eauto | lia]. }
  destruct Hloc as (s & e & ->). simpl.
  destruct (npfloat_ltb _ _); [eexists; reflexivity |].
  destruct (sf_write _ _ _ _); eexists; reflexivity.
Qed.

Lemma trim_file_returns_in_every_arithmetic_witness :
  (∀ wav, sf_read threshold_world "in.wav" = Some wav →
     0 <= 1000 * sample_rate wav < 1000 * 2 ^ 44)
  ∧ ∃ w', trim_file_in (ieee_arith binary32) threshold_world "in.wav"
            "out.wav" 1000 min_volume_default = Ok w'.
Proof.
  assert (H : ∀ wav, sf_read threshold_world "in.wav" = Some wav →
                0 <= 1000 * sample_rate wav < 1000 * 2 ^ 44).
  { intros wav Hw. vm_compute in Hw. injection Hw as <-. simpl. lia. }
  split; [exact H |].
  exact (trim_file_returns_in_every_arithmetic (ieee_arith binary32)
           threshold_world "in.wav"%string "out.wav"%string 1000
           min_volume_default H).
Defined.
